(** * Weighted binary cross-entropy loss (mmseg/models/losses/binary_cross_entropy_loss.py)

    A shallow embedding of [calculate_weights], [_expand_onehot_labels],
    [binary_cross_entropy] and [BinaryCrossEntropyLoss.forward].

    Conventions of the embedding.
    - A tensor is its size list together with its elements in row-major
      order, as the tensor library stores a contiguous tensor.
    - Integer tensors hold 64-bit signed integers ([Z] with the wrap-around
      written out); float tensors hold values of [fval]: exact rationals
      extended with the two infinities and NaN.  Rounding, overflow and the
      sign of zero are not represented; the special values follow IEEE 754.
    - The library computes in single precision.  Where that changes which
      bin of the histogram a label is counted in, or turns a finite weight
      into an infinity, the exact values say something else than the code
      does: [bin_of_single] is the bin as single precision gives it, it is
      the exact bin for up to 4097 classes ([bin_of_single_class]) and is
      not for 4098, and [upper_bound_limit] bounds the upper bounds for
      which no product leaves the finite range ([class_weight_formula_finite]).
      The properties of the values of the weights are stated inside these
      bounds.
    - A Python exception is an [Err] result; the caller's tensors that the
      code can write to live in a [store] that is threaded through the calls.
    - The element-wise formula of the logits loss (exponentials and
      logarithms) and the reduction helper [weight_reduce_loss], which is
      not part of this file's source, are parameters of the development. *)

From Stdlib Require Import String.
From Stdlib Require Import List ZArith QArith Qround Qpower Bool Arith Lia Lqa.
Import ListNotations.

Local Open Scope nat_scope.

(* ------------------------------------------------------------------ *)
(** ** Exceptions and results *)

Inductive exn : Type :=
| AssertionError
| AttributeError
| TypeError
| IndexError
| ValueError
| RuntimeError.

Inductive result (A : Type) : Type :=
| Ok (a : A)
| Err (e : exn).

Arguments Ok {A} a.
Arguments Err {A} e.

Definition is_ok {A} (r : result A) : bool :=
  match r with Ok _ => true | Err _ => false end.

Definition rbind {A B} (r : result A) (k : A -> result B) : result B :=
  match r with Ok a => k a | Err e => Err e end.

Declare Scope result_scope.
Delimit Scope result_scope with result.
Notation "x <- c ;; k" := (rbind c (fun x => k))
  (at level 61, c at next level, right associativity) : result_scope.

Definition check (b : bool) : result unit :=
  if b then Ok tt else Err AssertionError.

(* ------------------------------------------------------------------ *)
(** ** Float values *)

Inductive fval : Type :=
| Fin (q : Q)
| PInf
| NInf
| NaN.

Definition f0 : fval := Fin 0.
Definition f1 : fval := Fin 1.

Definition of_Z (z : Z) : fval := Fin (inject_Z z).
Definition of_nat (n : nat) : fval := of_Z (Z.of_nat n).
Definition of_bool (b : bool) : fval := if b then f1 else f0.

Definition Qzero (q : Q) : bool := Qeq_bool q 0.
Definition Qpos (q : Q) : bool := negb (Qle_bool q 0).

Definition fneg (x : fval) : fval :=
  match x with
  | Fin q => Fin (- q)
  | PInf => NInf
  | NInf => PInf
  | NaN => NaN
  end.

Definition fadd (x y : fval) : fval :=
  match x, y with
  | NaN, _ | _, NaN => NaN
  | Fin a, Fin b => Fin (a + b)
  | PInf, NInf | NInf, PInf => NaN
  | PInf, _ | _, PInf => PInf
  | NInf, _ | _, NInf => NInf
  end.

Definition fsub (x y : fval) : fval := fadd x (fneg y).

(** The infinity of the sign of [q]; a zero factor gives NaN. *)
Definition inf_signed (q : Q) : fval :=
  if Qzero q then NaN else if Qpos q then PInf else NInf.

Definition fmul (x y : fval) : fval :=
  match x, y with
  | NaN, _ | _, NaN => NaN
  | Fin a, Fin b => Fin (a * b)
  | PInf, Fin a | Fin a, PInf => inf_signed a
  | NInf, Fin a | Fin a, NInf => inf_signed (- a)
  | PInf, PInf | NInf, NInf => PInf
  | PInf, NInf | NInf, PInf => NInf
  end.

Definition fdiv (x y : fval) : fval :=
  match x, y with
  | NaN, _ | _, NaN => NaN
  | Fin a, Fin b => if Qzero b then inf_signed a else Fin (a / b)
  | Fin _, _ => f0
  | PInf, Fin b => if Qpos b || Qzero b then PInf else NInf
  | NInf, Fin b => if Qpos b || Qzero b then NInf else PInf
  | _, _ => NaN
  end.

(** [x != 0] on a float: true for NaN and the infinities. *)
Definition fnonzero (x : fval) : bool :=
  match x with Fin q => negb (Qzero q) | _ => true end.

Definition is_fin (x : fval) : bool :=
  match x with Fin _ => true | _ => false end.

(** Same value (rationals up to [Qeq]); used to state results, it is not
    the IEEE comparison. *)
Definition feq (x y : fval) : Prop :=
  match x, y with
  | Fin a, Fin b => (a == b)%Q
  | PInf, PInf | NInf, NInf | NaN, NaN => True
  | _, _ => False
  end.

Definition fle (x y : fval) : Prop :=
  match x, y with
  | NaN, _ | _, NaN => False
  | Fin a, Fin b => (a <= b)%Q
  | NInf, _ | _, PInf => True
  | _, _ => False
  end.

Definition fsum (l : list fval) : fval := fold_left fadd l f0.

(* ------------------------------------------------------------------ *)
(** ** Tensors *)

Record tensor (A : Type) : Type := mkTensor {
  shape : list nat;
  data : list A
}.

Arguments mkTensor {A} shape data.
Arguments shape {A} t.
Arguments data {A} t.

Definition numel (s : list nat) : nat := fold_right Nat.mul 1 s.

Definition wf {A} (t : tensor A) : Prop := length (data t) = numel (shape t).

Definition dim {A} (t : tensor A) : nat := length (shape t).

Definition tmap {A B} (f : A -> B) (t : tensor A) : tensor B :=
  mkTensor (shape t) (map f (data t)).

Definition full {A} (s : list nat) (a : A) : tensor A :=
  mkTensor s (repeat a (numel s)).

(** [t.float()] on an integer tensor. *)
Definition float (t : tensor Z) : tensor fval := tmap of_Z t.

(** Row-major multi-index of the flat position [p] in a tensor of size [s]. *)
Fixpoint unravel (s : list nat) (p : nat) : list nat :=
  match s with
  | [] => []
  | d :: s' => (p / numel s') mod d :: unravel s' (p mod numel s')
  end.

(** Flat position of a multi-index of full length; [None] out of range. *)
Fixpoint ravel (s : list nat) (idx : list nat) : option nat :=
  match s, idx with
  | [], [] => Some 0
  | d :: s', i :: idx' =>
      if i <? d
      then option_map (fun r => i * numel s' + r) (ravel s' idx')
      else None
  | _, _ => None
  end.

Definition shape_eqb (s1 s2 : list nat) : bool :=
  if list_eq_dec Nat.eq_dec s1 s2 then true else false.

(** [t.unsqueeze(d)]: a dimension of size one at position [d]. *)
Definition unsqueeze {A} (d : nat) (t : tensor A) : result (tensor A) :=
  if d <=? dim t
  then Ok (mkTensor (firstn d (shape t) ++ 1 :: skipn d (shape t)) (data t))
  else Err IndexError.

(** Sizes aligned from the right: [src] padded with leading ones up to the
    length of [tgt]; [None] when [src] is the longer one. *)
Definition pad_shape (src tgt : list nat) : option (list nat) :=
  if length src <=? length tgt
  then Some (repeat 1 (length tgt - length src) ++ src)
  else None.

(** A source dimension expands to a target dimension when it is equal to
    it or is one. *)
Definition expandable (src tgt : list nat) : bool :=
  match pad_shape src tgt with
  | Some ps =>
      forallb (fun '(a, b) => (a =? b) || (a =? 1)) (combine ps tgt)
  | None => false
  end.

(** The source multi-index read at the target multi-index [m]. *)
Definition src_index (ps : list nat) (m : list nat) : list nat :=
  map (fun '(a, i) => if a =? 1 then 0 else i) (combine ps m).

(** [t.expand(tgt)]: a view of size [tgt] reading [t] along its own
    dimensions and repeating it along the expanded ones. *)
Definition expand {A} (dflt : A) (t : tensor A) (tgt : list nat)
  : result (tensor A) :=
  match pad_shape (shape t) tgt with
  | Some ps =>
      if expandable (shape t) tgt
      then Ok (mkTensor tgt
                 (map (fun p =>
                         match ravel ps (src_index ps (unravel tgt p)) with
                         | Some k => nth k (data t) dflt
                         | None => dflt
                         end)
                      (seq 0 (numel tgt))))
      else Err RuntimeError
  | None => Err RuntimeError
  end.

(** A view made by [expand] shares memory between elements when some
    target dimension larger than one is read from a source dimension of
    size one (stride zero).  Current versions of the tensor library refuse
    to write in place through such a view. *)
Definition expand_overlaps (src tgt : list nat) : bool :=
  match pad_shape src tgt with
  | Some ps =>
      existsb (fun '(a, b) => (a =? 1) && (1 <? b)) (combine ps tgt)
  | None => false
  end.

(** The size two tensors broadcast to. *)
Definition broadcast_shapes (s1 s2 : list nat) : option (list nat) :=
  let n := Nat.max (length s1) (length s2) in
  let p1 := repeat 1 (n - length s1) ++ s1 in
  let p2 := repeat 1 (n - length s2) ++ s2 in
  if forallb (fun '(a, b) => (a =? b) || (a =? 1) || (b =? 1)) (combine p1 p2)
  then Some (map (fun '(a, b) => if a =? 1 then b else a) (combine p1 p2))
  else None.

(** [t[i]]: the [i]-th slice along the first dimension. *)
Definition select0 {A} (t : tensor A) (i : nat) : result (tensor A) :=
  match shape t with
  | d :: s' =>
      if i <? d
      then Ok (mkTensor s' (firstn (numel s') (skipn (i * numel s') (data t))))
      else Err IndexError
  | [] => Err IndexError
  end.

(** [t[i] = v] for a value [v] that already has the size of the slice. *)
Definition assign0 {A} (t : tensor A) (i : nat) (v : list A) : tensor A :=
  match shape t with
  | d :: s' =>
      mkTensor (shape t)
        (firstn (i * numel s') (data t) ++ v
           ++ skipn ((i + 1) * numel s') (data t))
  | [] => t
  end.

(** [t[1:]]: all slices along the first dimension but the first one. *)
Definition drop_first {A} (t : tensor A) : result (tensor A) :=
  match shape t with
  | d :: s' => Ok (mkTensor (Nat.pred d :: s') (skipn (numel s') (data t)))
  | [] => Err IndexError
  end.

(* ------------------------------------------------------------------ *)
(** ** Histograms: [input.histc(bins, min, max)]

    Elements outside [min, max] are ignored; an element [x] inside falls in
    bin [floor ((x - min) / (max - min) * bins)], the upper end in the last
    bin.  When [min = max] the range is taken from the data, and widened by
    one on each side when that is still a single point.  The position is
    exact here; the section on single precision gives it as the library
    computes it. *)

Definition in_range (mn mx : Q) (x : fval) : bool :=
  match x with
  | Fin q => Qle_bool mn q && Qle_bool q mx
  | _ => false
  end.

Definition bin_of (bins : nat) (mn mx q : Q) : nat :=
  Nat.min
    (Z.to_nat (Qfloor ((q - mn) / (mx - mn) * inject_Z (Z.of_nat bins))))
    (bins - 1).

Definition in_bin (bins : nat) (mn mx : Q) (k : nat) (x : fval) : bool :=
  match x with
  | Fin q => in_range mn mx x && (bin_of bins mn mx q =? k)
  | _ => false
  end.

Definition Qmin_list (q0 : Q) (l : list Q) : Q :=
  fold_left (fun a b => if Qle_bool b a then b else a) l q0.
Definition Qmax_list (q0 : Q) (l : list Q) : Q :=
  fold_left (fun a b => if Qle_bool a b then b else a) l q0.

Definition fin_values (xs : list fval) : list Q :=
  flat_map (fun x => match x with Fin q => [q] | _ => [] end) xs.

Definition histc_range (xs : list fval) (mn mx : Q) : result (Q * Q) :=
  if Qeq_bool mn mx then
    if forallb is_fin xs then
      let '(lo, hi) :=
        match fin_values xs with
        | [] => (mn, mx)
        | q :: qs => (Qmin_list q qs, Qmax_list q qs)
        end in
      if Qeq_bool lo hi then Ok (lo - 1, hi + 1)%Q else Ok (lo, hi)
    else Err RuntimeError
  else Ok (mn, mx).

Definition histc (input : tensor fval) (bins : nat) (mn mx : Q)
  : result (tensor fval) :=
  if (bins =? 0) || negb (Qle_bool mn mx) then Err RuntimeError
  else
    rbind (histc_range (data input) mn mx) (fun '(lo, hi) =>
    Ok (mkTensor [bins]
          (map (fun k => of_nat (length (filter (in_bin bins lo hi k) (data input))))
               (seq 0 bins)))).

(* ------------------------------------------------------------------ *)
(** ** Single precision

    The histogram is taken of [label.float()], and the library computes the
    position of an element among the bins in single precision: each
    operation gives the single-precision number nearest to its exact
    result, a tie going to the even significand.  [round_single] is this
    rounding to 24 significant bits; the exponent range is not bounded, so
    overflow to an infinity and subnormal numbers are not represented.
    The versions of the library differ in the order of the two operations
    of the position: the product with the number of bins first, or the
    quotient by the width of the range first. *)

Definition pow2 (k : Z) : Q := (2 ^ k)%Q.

(** The binade of a positive [q]: the [k] with [2 ^ k <= q < 2 ^ (k + 1)]. *)
Definition binade (q : Q) : Z :=
  let l := (Z.log2 (Qnum q) - Z.log2 (Z.pos (Qden q)))%Z in
  if Qle_bool (pow2 l) q then l else (l - 1)%Z.

(** The nearest integer, a tie going to the even one. *)
Definition round_even (q : Q) : Z :=
  let f := Qfloor q in
  match (q - inject_Z f ?= 1 # 2)%Q with
  | Lt => f
  | Gt => (f + 1)%Z
  | Eq => if Z.even f then f else (f + 1)%Z
  end.

(** The factor that makes the significand of a positive [q] an integer of
    24 bits. *)
Definition scale (q : Q) : Q := pow2 (23 - binade q).

Definition round_pos (q : Q) : Q :=
  (inject_Z (round_even (q * scale q)) / scale q)%Q.

Definition round_single (q : Q) : Q :=
  match (q ?= 0)%Q with
  | Eq => 0%Q
  | Gt => round_pos q
  | Lt => (- round_pos (- q))%Q
  end.

(** The position [(x - min) * bins / (max - min)] of an element among the
    bins, every operation rounded. *)
Definition position_single (mul_first : bool) (bins : nat) (mn mx q : Q) : Q :=
  let d := round_single (q - mn) in
  let w := round_single (mx - mn) in
  let b := round_single (inject_Z (Z.of_nat bins)) in
  if mul_first then round_single (round_single (d * b) / w)
  else round_single (round_single (d / w) * b).

(** The bin of an element of the range as single precision gives it;
    [bin_of] is the same with the exact position. *)
Definition bin_of_single (mul_first : bool) (bins : nat) (mn mx q : Q) : nat :=
  Nat.min (Z.to_nat (Qfloor (position_single mul_first bins mn mx q)))
          (bins - 1).

Definition in_bin_single (mul_first : bool) (bins : nat) (mn mx : Q) (k : nat)
    (x : fval) : bool :=
  match x with
  | Fin q => in_range mn mx x && (bin_of_single mul_first bins mn mx q =? k)
  | _ => false
  end.

(** The largest single-precision number, [(2 - 2 ^ -23) * 2 ^ 127]. *)
Definition single_max : Q := inject_Z ((2 ^ 24 - 1) * 2 ^ 104).

(* ------------------------------------------------------------------ *)
(** ** [calculate_weights] *)

Definition eps : Q := 1 # 1000000.

Definition calculate_weights (label : tensor Z) (num_classes : nat)
    (norm : bool) (upper_bound : fval) : result (tensor fval) :=
  rbind (histc (float label) num_classes 0
           (inject_Z (Z.of_nat num_classes - 1))) (fun hist =>
  let total := fsum (data hist) in
  let hist_norm := tmap (fun h => fdiv h total) hist in
  let weights :=
    if norm then
      map (fun '(h, hn) =>
             fadd (fmul (fmul (of_bool (fnonzero h)) upper_bound)
                        (fdiv f1 (fadd hn (Fin eps)))) f1)
          (combine (data hist) (data hist_norm))
    else
      map (fun '(h, hn) =>
             fadd (fmul (fmul (of_bool (fnonzero h)) upper_bound)
                        (fsub f1 hn)) f1)
          (combine (data hist) (data hist_norm)) in
  Ok (mkTensor (shape hist) weights)).

(* ------------------------------------------------------------------ *)
(** ** The caller's tensors and the state-and-exception monad

    [_expand_onehot_labels] writes to the tensors it is handed, so the
    label tensor and the optional weight tensor of the caller are kept in a
    store; a call maps the store before it to its outcome and the store
    after it, also when it raises. *)

Record store : Type := mkStore {
  caller_label : tensor Z;
  caller_weight : option (tensor fval)
}.

Definition M (A : Type) : Type := store -> result A * store.

Definition ret {A} (a : A) : M A := fun s => (Ok a, s).
Definition raise {A} (e : exn) : M A := fun s => (Err e, s).
Definition bind {A B} (c : M A) (k : A -> M B) : M B :=
  fun s => match c s with
           | (Ok a, s') => k a s'
           | (Err e, s') => (Err e, s')
           end.
Definition lift {A} (r : result A) : M A := fun s => (r, s).
Definition get : M store := fun s => (Ok s, s).
Definition put (s : store) : M unit := fun _ => (Ok tt, s).
Definition assert_ (b : bool) : M unit :=
  if b then ret tt else raise AssertionError.

Declare Scope monad_scope.
Delimit Scope monad_scope with monad.
Notation "x <- c ;; k" := (bind c (fun x => k))
  (at level 61, c at next level, right associativity) : monad_scope.
Notation "' pat <- c ;; k" := (bind c (fun x => match x with pat => k end))
  (at level 61, pat pattern, c at next level, right associativity) : monad_scope.
Notation "c ;; k" := (bind c (fun _ => k))
  (at level 61, right associativity) : monad_scope.

(* ------------------------------------------------------------------ *)
(** ** [_expand_onehot_labels] *)

Definition wrap64 (z : Z) : Z :=
  ((z + 2 ^ 63) mod 2 ^ 64 - 2 ^ 63)%Z.

(** [labels[labels != ignore_index] = labels[labels != ignore_index] - 1],
    element by element. *)
Definition shift_label (ignore_index x : Z) : Z :=
  if (x =? ignore_index)%Z then x else wrap64 (x - 1).

(** [(labels >= 0) & (labels != ignore_index)], element by element. *)
Definition valid (ignore_index x : Z) : bool :=
  (0 <=? x)%Z && negb (x =? ignore_index)%Z.

(** The index tuples of the indexed assignment, one per valid position, in
    the order of [torch.nonzero]: [(n, label, h, w)] for labels of three
    dimensions, [(n, label)] otherwise. *)
Definition index_tuple (labels : tensor Z) (p : nat) (x : Z) : list Z :=
  let m := map Z.of_nat (unravel (shape labels) p) in
  if dim labels =? 3
  then [nth 0 m 0%Z; x; nth 1 m 0%Z; nth 2 m 0%Z]
  else [nth 0 m 0%Z; x].

Definition index_tuples (labels : tensor Z) (ignore_index : Z)
  : list (list Z) :=
  flat_map (fun '(p, x) =>
              if valid ignore_index x then [index_tuple labels p x] else [])
           (combine (seq 0 (length (data labels))) (data labels)).

Definition tuple_in_bounds (s : list nat) (t : list Z) : bool :=
  (length t <=? length s)
  && forallb (fun '(i, d) => (0 <=? i)%Z && (i <? Z.of_nat d)%Z) (combine t s).

Fixpoint is_prefix (t m : list Z) : bool :=
  match t, m with
  | [], _ => true
  | i :: t', j :: m' => (i =? j)%Z && is_prefix t' m'
  | _ :: _, [] => false
  end.

(** [bin_labels[tuples] = 1] on a tensor of zeros of size [s]: every element
    whose leading indices are one of the tuples becomes one; a tuple longer
    than the tensor's dimensions or out of range raises IndexError. *)
Definition ones_at (s : list nat) (tuples : list (list Z)) : list Z :=
  map (fun p =>
         if existsb (fun t => is_prefix t (map Z.of_nat (unravel s p))) tuples
         then 1%Z else 0%Z)
      (seq 0 (numel s)).

Definition index_put_ones (s : list nat) (tuples : list (list Z))
  : result (tensor Z) :=
  if forallb (tuple_in_bounds s) tuples
  then Ok (mkTensor s (ones_at s tuples))
  else Err IndexError.

(** The flat source position read at the flat position [p] of an expanded
    view. *)
Definition src_pos (ps tgt : list nat) (p : nat) : option nat :=
  ravel ps (src_index ps (unravel tgt p)).

(** [view *= mask] through a view made by [expand] that shares no memory:
    the source element at [k] is multiplied by the mask elements of the view
    positions that read it. *)
Definition write_back (ps tgt : list nat) (mask : list fval) (src : list fval)
  : list fval :=
  map (fun '(k, w) =>
         fold_left fmul
           (flat_map (fun '(p, v) =>
                        match src_pos ps tgt p with
                        | Some k' => if k' =? k then [v] else []
                        | None => []
                        end)
                     (combine (seq 0 (length mask)) mask))
           w)
      (combine (seq 0 (length src)) src).

Local Open Scope monad_scope.

(** The function's [labels] and [label_weights] are the caller's tensors,
    read from and written to the store. *)
Definition _expand_onehot_labels (target_shape : list nat) (ignore_index : Z)
    (include_zero : bool) : M (tensor Z * tensor fval) :=
  st <- get ;;
  (if include_zero then ret tt
   else put (mkStore (tmap (shift_label ignore_index) (caller_label st))
                     (caller_weight st))) ;;
  st <- get ;;
  let labels := caller_label st in
  let zeros := full target_shape 0%Z in
  let valid_mask := tmap (valid ignore_index) labels in
  let inds := index_tuples labels ignore_index in
  bin_labels <- lift (match inds with
                      | [] => Ok zeros
                      | _ :: _ => index_put_ones target_shape inds
                      end) ;;
  vm1 <- lift (unsqueeze 1 valid_mask) ;;
  vm2 <- lift (expand false vm1 target_shape) ;;
  let valid_mask := tmap of_bool vm2 in
  match caller_weight st with
  | None => ret (bin_labels, valid_mask)
  | Some label_weights =>
      w1 <- lift (unsqueeze 1 label_weights) ;;
      w2 <- lift (expand NaN w1 target_shape) ;;
      if expand_overlaps (shape w1) target_shape then raise RuntimeError
      else
        let ps := repeat 1 (length target_shape - length (shape w1)) ++ shape w1 in
        put (mkStore labels
               (Some (mkTensor (shape label_weights)
                        (write_back ps target_shape (data valid_mask)
                           (data label_weights))))) ;;
        ret (bin_labels,
             mkTensor target_shape
               (map (fun '(a, b) => fmul a b)
                    (combine (data w2) (data valid_mask))))
  end.

(* ------------------------------------------------------------------ *)
(** ** [binary_cross_entropy] and [BinaryCrossEntropyLoss] *)

Fixpoint strip_ones (s : list nat) : list nat :=
  match s with
  | 1 :: s' => strip_ones s'
  | _ => s
  end.

(** [t[i] = v]: the value, without its leading dimensions of size one, is
    expanded to the size of the slice and copied there. *)
Definition setitem0 {A} (dflt : A) (t : tensor A) (i : nat) (v : tensor A)
  : result (tensor A) :=
  (slice <- select0 t i ;;
   e <- expand dflt (mkTensor (strip_ones (shape v)) (data v)) (shape slice) ;;
   Ok (assign0 t i (data e)))%result.

(** [class_weight.unsqueeze(0).unsqueeze(2).unsqueeze(3)] *)
Definition pos_weight_of (class_weight : tensor fval) : result (tensor fval) :=
  (t <- unsqueeze 0 class_weight ;;
   t <- unsqueeze 2 t ;;
   unsqueeze 3 t)%result.

Definition is_none {A} (o : option A) : bool :=
  match o with None => true | Some _ => false end.

Definition is_norm (img_based_class_weights : option string) : bool :=
  match img_based_class_weights with
  | Some s => String.eqb s "norm"
  | None => false
  end.

Section Loss.

(** The element-wise logits loss of the tensor library, as a function of
    the logit, the target and the positive-class weight. *)
Variable bce_logit : fval -> fval -> fval -> fval.

(** [weight_reduce_loss(loss, weight, reduction, avg_factor)] of the
    package's [utils] module; it writes to none of its arguments. *)
Variable weight_reduce_loss :
  tensor fval -> option (tensor fval) -> string -> option fval ->
  result (tensor fval).

(** [F.binary_cross_entropy_with_logits(input, target,
    pos_weight=pos_weight, reduction='none')]: the target must have the
    size of the input, and the positive-class weight must broadcast with
    the target to exactly that size, the loss being accumulated in place
    in a tensor of the input's size. *)
Definition binary_cross_entropy_with_logits
    (input target pos_weight : tensor fval) : result (tensor fval) :=
  if negb (shape_eqb (shape target) (shape input)) then Err ValueError
  else
    match broadcast_shapes (shape pos_weight) (shape target) with
    | Some bs =>
        if shape_eqb bs (shape input) then
          (pw <- expand NaN pos_weight (shape input) ;;
           Ok (mkTensor (shape input)
                 (map (fun '(x, t, w) => bce_logit x t w)
                      (combine (combine (data input) (data target))
                               (data pw)))))%result
        else Err RuntimeError
    | None => Err RuntimeError
    end.

(** The body of [for i in range(pred.shape[0])] of the per-image mode. *)
Definition per_image_step (pred : tensor fval) (label : tensor Z)
    (num_classes : nat) (norm include_zero : bool)
    (loss : tensor fval) (i : nat) : result (tensor fval) :=
  (label_i <- select0 label i ;;
   class_weight <- calculate_weights label_i num_classes norm f1 ;;
   class_weight <- (if include_zero then Ok class_weight
                    else drop_first class_weight) ;;
   pred_i <- select0 pred i ;;
   input <- unsqueeze 0 pred_i ;;
   target <- unsqueeze 0 label_i ;;
   pos_weight <- pos_weight_of class_weight ;;
   v <- binary_cross_entropy_with_logits input (float target) pos_weight ;;
   setitem0 NaN loss i v)%result.

Fixpoint per_image_loop (pred : tensor fval) (label : tensor Z)
    (num_classes : nat) (norm include_zero : bool)
    (range : list nat) (loss : tensor fval) : result (tensor fval) :=
  match range with
  | [] => Ok loss
  | i :: range' =>
      rbind (per_image_step pred label num_classes norm include_zero loss i)
            (per_image_loop pred label num_classes norm include_zero range')
  end.

(** [pred.shape[k]] *)
Definition size_at (s : list nat) (k : nat) : result nat :=
  match nth_error s k with
  | Some d => Ok d
  | None => Err IndexError
  end.

(** The element-wise loss: the part of the body of [binary_cross_entropy]
    between the expansion of the labels and the reduction.  It writes to
    no tensor of the caller. *)
Definition elementwise_loss (pred : tensor fval) (label : tensor Z)
    (img_based_class_weights : option string) (batch_weights : bool)
    (class_weight : option (tensor fval)) (include_zero : bool)
  : result (tensor fval) :=
  (if is_none class_weight && negb (is_none img_based_class_weights)
      && negb batch_weights
   then
     _ <- check ((2 <? dim pred) && (1 <? dim label)) ;;
     n <- size_at (shape pred) 0 ;;
     c <- size_at (shape pred) 1 ;;
     per_image_loop pred label c (is_norm img_based_class_weights)
       include_zero (seq 0 n) (full (shape label) f0)
   else
     class_weight <-
       (if is_none class_weight && negb (is_none img_based_class_weights)
           && batch_weights
        then
          c <- size_at (shape pred) 1 ;;
          w <- calculate_weights label c
                 (is_norm img_based_class_weights) f1 ;;
          Ok (Some w)
        else Ok class_weight) ;;
     class_weight <-
       (if include_zero then Ok class_weight
        else match class_weight with
             | Some w => w' <- drop_first w ;; Ok (Some w')
             | None => Err TypeError
             end) ;;
     match class_weight with
     | Some w =>
         pos_weight <- pos_weight_of w ;;
         binary_cross_entropy_with_logits pred (float label) pos_weight
     | None => Err AttributeError
     end)%result.

(** The label and weight arguments are the caller's tensors of the
    store. *)
Definition binary_cross_entropy (pred : tensor fval)
    (img_based_class_weights : option string) (batch_weights : bool)
    (class_weight : option (tensor fval)) (reduction : string)
    (avg_factor : option fval) (ignore_index : Z) (include_zero : bool)
  : M (tensor fval) :=
  st <- get ;;
  ' (label, weight) <-
    (if negb (dim pred =? dim (caller_label st)) then
       assert_ (((dim pred =? 2) && (dim (caller_label st) =? 1))
                || ((dim pred =? 4) && (dim (caller_label st) =? 3))) ;;
       ' (l, w) <- _expand_onehot_labels (shape pred) ignore_index
                     include_zero ;;
       ret (l, Some w)
     else ret (caller_label st, caller_weight st)) ;;
  loss <- lift (elementwise_loss pred label img_based_class_weights
                  batch_weights class_weight include_zero) ;;
  lift (weight_reduce_loss loss weight reduction avg_factor).

(** The configuration set by [__init__]. *)
Record BinaryCrossEntropyLoss : Type := mkLoss {
  self_include_zero : bool;
  self_img_based_class_weights : option string;
  self_batch_weights : bool;
  self_reduction : string;
  self_loss_weight : fval;
  self_class_weight : option (list fval)
}.

(** [reduction_override in (None, 'none', 'mean', 'sum')] *)
Definition override_allowed (reduction_override : option string) : bool :=
  match reduction_override with
  | None => true
  | Some s => String.eqb s "none" || String.eqb s "mean" || String.eqb s "sum"
  end.

(** [reduction_override if reduction_override else self.reduction]: None
    and the empty string are false. *)
Definition choose_reduction (reduction_override : option string)
    (configured : string) : string :=
  match reduction_override with
  | Some s => if String.eqb s "" then configured else s
  | None => configured
  end.

(** [cls_score.new_tensor(self.class_weight)] *)
Definition new_tensor (l : list fval) : tensor fval :=
  mkTensor [length l] l.

(** [forward]; of the extra keyword arguments only [ignore_index] is one
    that [binary_cross_entropy] accepts, absent it takes its default. *)
Definition forward (self : BinaryCrossEntropyLoss) (cls_score : tensor fval)
    (avg_factor : option fval) (reduction_override : option string)
    (kw_ignore_index : option Z) : M (tensor fval) :=
  assert_ (override_allowed reduction_override) ;;
  let reduction := choose_reduction reduction_override (self_reduction self) in
  let class_weight := option_map new_tensor (self_class_weight self) in
  loss <- binary_cross_entropy cls_score
            (self_img_based_class_weights self) (self_batch_weights self)
            class_weight reduction avg_factor
            (match kw_ignore_index with Some i => i | None => 255%Z end)
            (self_include_zero self) ;;
  ret (tmap (fmul (self_loss_weight self)) loss).

End Loss.

(* ------------------------------------------------------------------ *)
(** ** Inputs used in the examples *)

(** Labels 0 and 1 of a batch of two, no sample weights. *)
Definition st_rank1 : store := mkStore (mkTensor [2] [0; 1]%Z) None.

(** A prediction of size (2, 3, 4, 4) and labels of size (2, 4, 4) with
    the values 0, 1 and 2, no sample weights. *)
Definition pred_scenario : tensor fval := mkTensor [2; 3; 4; 4] (repeat f0 96).

Definition st_scenario : store :=
  mkStore (mkTensor [2; 4; 4]
             [0; 1; 2; 0;  1; 2; 0; 1;  2; 0; 1; 2;  0; 1; 2; 0;
              2; 2; 1; 1;  0; 0; 2; 1;  0; 1; 1; 2;  2; 0; 0; 1]%Z)
          None.

(** The labels 1 and 255 of one sample before a call that excludes the
    zero class, and the store after it. *)
Definition st_shift_before : store :=
  mkStore (mkTensor [1; 1; 2] [1; 255]%Z) None.
Definition st_shift_after : store :=
  mkStore (mkTensor [1; 1; 2] [0; 255]%Z) None.

(** The labels 2 and 2 of one sample. *)
Definition st_two_twos : store := mkStore (mkTensor [1; 1; 2] [2; 2]%Z) None.

(** The expansion of the labels 2 and 2 for three classes, and its
    weights. *)
Definition bin_two_twos : tensor Z :=
  mkTensor [1; 3; 1; 2] [0; 0; 0; 0; 1; 1]%Z.
Definition mask_two_twos : tensor fval := mkTensor [1; 3; 1; 2] (repeat f1 6).

(** A prediction of size (1, 3, 1, 2). *)
Definition pred_two : tensor fval := mkTensor [1; 3; 1; 2] (repeat f0 6).

(** The labels 0, 1, 1 and 2. *)
Definition four_labels : tensor Z := mkTensor [4] [0; 1; 1; 2]%Z.

(** The loss module as [__init__] configures it by default. *)
Definition default_loss : BinaryCrossEntropyLoss :=
  mkLoss true None true "mean" f1 None.

(* ------------------------------------------------------------------ *)
(** ** Quantities used to state the properties *)

(** How often class [k] occurs among the labels. *)
Definition count_class (k : nat) (l : list Z) : nat :=
  length (filter (fun x => (x =? Z.of_nat k)%Z) l).

(** How many labels are class indices, that is lie in [0, C - 1]. *)
Definition count_valid (C : nat) (l : list Z) : nat :=
  length (filter (fun x => (0 <=? x)%Z && (x <=? Z.of_nat C - 1)%Z) l).

Definition Qnat (n : nat) : Q := inject_Z (Z.of_nat n).

(** The weight of a class that occurs [c] times among [t] class indices. *)
Definition class_weight_formula (norm : bool) (u : Q) (c t : nat) : Q :=
  if c =? 0 then 1
  else if norm then u * (1 / (Qnat c / Qnat t + eps)) + 1
  else u * (1 - Qnat c / Qnat t) + 1.

(** The upper bounds for which every weight is finite in single precision.
    Without normalisation no product is above the upper bound itself; with
    it the factor [1 / (histNorm + eps)] is up to [1 / eps], a million. *)
Definition upper_bound_limit (norm : bool) : Q :=
  if norm then single_max * eps else single_max.

(** One entry of the weight vector, from the bin count [h] and the total. *)
Definition weight_entry (norm : bool) (upper_bound h total : fval) : fval :=
  if norm
  then fadd (fmul (fmul (of_bool (fnonzero h)) upper_bound)
                  (fdiv f1 (fadd (fdiv h total) (Fin eps)))) f1
  else fadd (fmul (fmul (of_bool (fnonzero h)) upper_bound)
                  (fsub f1 (fdiv h total))) f1.

(** [t[idx]] for a multi-index of full length. *)
Definition item {A} (t : tensor A) (idx : list nat) : option A :=
  match ravel (shape t) idx with
  | Some k => nth_error (data t) k
  | None => None
  end.

(** The sum over the class axis (the second one) of an integer tensor at
    sample [n] and spatial position [sp]. *)
Definition class_sum (t : tensor Z) (n : nat) (sp : list nat) : Z :=
  fold_right Z.add 0%Z
    (map (fun c => match item t (n :: c :: sp) with
                   | Some v => v
                   | None => 0%Z
                   end)
         (seq 0 (nth 1 (shape t) 0))).

(* ------------------------------------------------------------------ *)
(** ** Facts about histograms and [calculate_weights] *)

Lemma Qzero_false (q : Q) : (0 < q)%Q -> Qzero q = false.
Proof.
  intros H. unfold Qzero. destruct (Qeq_bool q 0) eqn:E; [|reflexivity].
  apply Qeq_bool_iff in E. lra.
Qed.

Lemma Qzero_true (q : Q) : (q == 0)%Q -> Qzero q = true.
Proof. intros H. unfold Qzero. now apply Qeq_bool_iff. Qed.

Lemma Qnat_nonneg (n : nat) : (0 <= Qnat n)%Q.
Proof.
  unfold Qnat. replace 0%Q with (inject_Z 0) by reflexivity.
  rewrite <- Zle_Qle. lia.
Qed.

Lemma Qnat_pos (n : nat) : 0 < n -> (0 < Qnat n)%Q.
Proof.
  intros H. unfold Qnat. replace 0%Q with (inject_Z 0) by reflexivity.
  rewrite <- Zlt_Qlt. lia.
Qed.

Lemma Qnat_le (n m : nat) : n <= m -> (Qnat n <= Qnat m)%Q.
Proof. intros H. unfold Qnat. rewrite <- Zle_Qle. lia. Qed.

(** *** Single-precision rounding and the bins of the class indices *)

Lemma pow2_pos (k : Z) : (0 < pow2 k)%Q.
Proof. unfold pow2. apply Qpower_0_lt. reflexivity. Qed.

Lemma pow2_inject (e : Z) : (0 <= e)%Z -> (pow2 e == inject_Z (2 ^ e))%Q.
Proof. intros He. unfold pow2. now rewrite Zpower_Qpower. Qed.

Lemma pow2_le (n m : Z) : (n <= m)%Z -> (pow2 n <= pow2 m)%Q.
Proof.
  intros H. unfold pow2. apply Qpower_le_compat_l; [exact H|].
  unfold Qle; simpl; lia.
Qed.

Lemma pow2_lt_inv (n m : Z) : (pow2 n < pow2 m)%Q -> (n < m)%Z.
Proof. intros H. apply (Qpower_lt_compat_l_inv 2); [exact H|reflexivity]. Qed.

Lemma pow2_succ (k : Z) : (pow2 (k + 1) == 2 * pow2 k)%Q.
Proof.
  unfold pow2. rewrite Qpower_plus by (intros H; discriminate H).
  rewrite Qpower_1_r. ring.
Qed.

Lemma pow2_minus (n m : Z) : (pow2 (n - m) == pow2 n / pow2 m)%Q.
Proof. unfold pow2. apply Qpower_minus. intros H; discriminate H. Qed.

Lemma binade_spec (q : Q) :
  (0 < q)%Q -> (pow2 (binade q) <= q /\ q < pow2 (binade q + 1))%Q.
Proof.
  intros Hq. destruct q as [n d].
  assert (Hn : (0 < n)%Z).
  { unfold Qlt in Hq. simpl in Hq. lia. }
  unfold binade. cbn [Qnum Qden].
  set (a := Z.log2 n). set (b := Z.log2 (Z.pos d)).
  destruct (Z.log2_spec n Hn) as [Ha1 Ha2].
  destruct (Z.log2_spec (Z.pos d) (Pos2Z.is_pos d)) as [Hb1 Hb2].
  fold a in Ha1, Ha2. fold b in Hb1, Hb2.
  assert (Ha0 : (0 <= a)%Z) by apply Z.log2_nonneg.
  assert (Hb0 : (0 <= b)%Z) by apply Z.log2_nonneg.
  rewrite Zle_Qle in Ha1, Hb1. rewrite Zlt_Qlt in Ha2, Hb2.
  rewrite <- pow2_inject in Ha1, Hb1, Ha2, Hb2 by lia.
  replace (Z.succ a) with (a + 1)%Z in Ha2 by lia.
  replace (Z.succ b) with (b + 1)%Z in Hb2 by lia.
  rewrite pow2_succ in Ha2, Hb2.
  pose proof (pow2_minus a b) as Hab.
  pose proof (pow2_pos a) as Pa. pose proof (pow2_pos b) as Pb.
  pose proof (pow2_pos (a - b)) as Pab.
  assert (Hab' : (pow2 (a - b) * pow2 b == pow2 a)%Q).
  { rewrite Hab. field. lra. }
  assert (Hqd : ((n # d) * inject_Z (Z.pos d) == inject_Z n)%Q).
  { unfold Qeq, Qmult, inject_Z; simpl. lia. }
  set (q := n # d) in *. set (dq := inject_Z (Z.pos d)) in *.
  set (nq := inject_Z n) in *.
  destruct (Qle_bool (pow2 (a - b)) q) eqn:E.
  - apply Qle_bool_iff in E. split; [exact E|].
    rewrite pow2_succ.
    (* q * 2^b <= q * d = n < 2 * 2^a = 2 * 2^(a-b) * 2^b *)
    apply Qnot_le_lt. intros Hc.
    assert (2 * pow2 (a - b) * pow2 b <= q * dq)%Q.
    { apply Qle_trans with (q * pow2 b)%Q.
      - apply Qmult_le_compat_r; [exact Hc|lra].
      - rewrite (Qmult_comm q (pow2 b)), (Qmult_comm q dq).
        apply Qmult_le_compat_r; lra. }
    lra.
  - assert (E' : (q < pow2 (a - b))%Q).
    { apply Qnot_le_lt. intros Hc. apply Qle_bool_iff in Hc. congruence. }
    replace (a - b - 1 + 1)%Z with (a - b)%Z by lia.
    split; [|exact E'].
    assert (Hh : (pow2 (a - b) == 2 * pow2 (a - b - 1))%Q).
    { rewrite <- pow2_succ.
      replace (a - b - 1 + 1)%Z with (a - b)%Z by lia. reflexivity. }
    apply Qnot_lt_le. intros Hc.
    (* q * d = n >= 2^a ; q < 2^(a-b-1), d < 2 * 2^b *)
    assert (q * dq < pow2 (a - b - 1) * (2 * pow2 b))%Q.
    { apply Qle_lt_trans with (q * (2 * pow2 b))%Q.
      - rewrite (Qmult_comm q dq), (Qmult_comm q (2 * pow2 b)).
        apply Qmult_le_compat_r; lra.
      - apply Qmult_lt_compat_r; lra. }
    assert (pow2 (a - b - 1) * (2 * pow2 b) == pow2 a)%Q.
    { rewrite <- Hab', Hh. ring. }
    lra.
Qed.

Lemma round_even_near (q : Q) :
  (q - (1 # 2) <= inject_Z (round_even q) /\ inject_Z (round_even q) <= q + (1 # 2))%Q.
Proof.
  unfold round_even.
  pose proof (Qfloor_le q) as Hlo. pose proof (Qlt_floor q) as Hhi.
  rewrite inject_Z_plus in Hhi. change (inject_Z 1) with 1%Q in Hhi.
  destruct (Qcompare_spec (q - inject_Z (Qfloor q)) (1 # 2)) as [E|E|E].
  - destruct (Z.even (Qfloor q)).
    + lra.
    + rewrite inject_Z_plus. change (inject_Z 1) with 1%Q. lra.
  - lra.
  - rewrite inject_Z_plus. change (inject_Z 1) with 1%Q. lra.
Qed.

Lemma round_even_ge (q : Q) (N : Z) :
  (inject_Z N <= q)%Q -> (N <= round_even q)%Z.
Proof.
  intros H. apply Qfloor_resp_le in H. rewrite Qfloor_Z in H.
  unfold round_even.
  destruct (q - inject_Z (Qfloor q) ?= 1 # 2)%Q; [destruct (Z.even _)|..]; lia.
Qed.

Lemma round_even_le (q : Q) (N : Z) :
  (q <= inject_Z N)%Q -> (round_even q <= N)%Z.
Proof.
  intros H.
  pose proof (Qfloor_le q) as Hlo.
  destruct (Z_lt_le_dec (Qfloor q) N) as [Hlt|Hge].
  - unfold round_even.
    destruct (q - inject_Z (Qfloor q) ?= 1 # 2)%Q; [destruct (Z.even _)|..]; lia.
  - rewrite Zle_Qle in Hge.
    unfold round_even.
    destruct (Qcompare_spec (q - inject_Z (Qfloor q)) (1 # 2)) as [E|E|E];
      [lra|rewrite Zle_Qle; lra|lra].
Qed.

Lemma round_even_lt (q : Q) (N : Z) :
  (q < inject_Z N - (1 # 2))%Q -> (round_even q <= N - 1)%Z.
Proof.
  intros H. destruct (round_even_near q) as [_ Hr].
  assert (Hlt : (inject_Z (round_even q) < inject_Z N)%Q) by lra.
  rewrite <- Zlt_Qlt in Hlt. lia.
Qed.

Lemma scale_pos (q : Q) : (0 < scale q)%Q.
Proof. apply pow2_pos. Qed.

Lemma round_single_pos (q : Q) : (0 < q)%Q -> round_single q = round_pos q.
Proof. intros H. unfold round_single. apply Qgt_alt in H. now rewrite H. Qed.

Lemma round_single_zero (q : Q) : (q == 0)%Q -> round_single q = 0%Q.
Proof. intros H. unfold round_single. apply Qeq_alt in H. now rewrite H. Qed.

Lemma round_pos_ge (q : Q) (N : Z) :
  (inject_Z N <= q * scale q)%Q -> (inject_Z N / scale q <= round_pos q)%Q.
Proof.
  intros H. unfold round_pos.
  pose proof (scale_pos q) as Hs.
  apply round_even_ge in H. rewrite Zle_Qle in H.
  apply Qle_shift_div_l; [exact Hs|].
  set (r := inject_Z (round_even (q * scale q))) in *.
  assert (E : (inject_Z N / scale q * scale q == inject_Z N)%Q) by (field; lra).
  rewrite E. exact H.
Qed.

Lemma round_pos_le (q : Q) (N : Z) :
  (q * scale q <= inject_Z N)%Q -> (round_pos q <= inject_Z N / scale q)%Q.
Proof.
  intros H. unfold round_pos.
  pose proof (scale_pos q) as Hs.
  apply round_even_le in H. rewrite Zle_Qle in H.
  set (r := inject_Z (round_even (q * scale q))) in *.
  apply Qle_shift_div_r; [exact Hs|].
  assert (E : (inject_Z N / scale q * scale q == inject_Z N)%Q) by (field; lra).
  rewrite E. exact H.
Qed.

Lemma round_pos_lt (q : Q) (N : Z) :
  (q * scale q < inject_Z N - (1 # 2))%Q ->
  (round_pos q <= (inject_Z N - 1) / scale q)%Q.
Proof.
  intros H. unfold round_pos.
  pose proof (scale_pos q) as Hs.
  apply round_even_lt in H. rewrite Zle_Qle in H.
  unfold Z.sub in H. rewrite inject_Z_plus, inject_Z_opp in H.
  change (inject_Z 1) with 1%Q in H.
  set (r := inject_Z (round_even (q * scale q))) in *.
  apply Qle_shift_div_r; [exact Hs|].
  assert (E : ((inject_Z N - 1) / scale q * scale q == inject_Z N - 1)%Q)
    by (field; lra).
  rewrite E. lra.
Qed.

Lemma round_pos_near (q : Q) :
  (q - (1 # 2) / scale q <= round_pos q
   /\ round_pos q <= q + (1 # 2) / scale q)%Q.
Proof.
  unfold round_pos.
  pose proof (scale_pos q) as Hs.
  destruct (round_even_near (q * scale q)) as [Hlo Hhi].
  set (r := inject_Z (round_even (q * scale q))) in *.
  split.
  - apply Qle_shift_div_l; [exact Hs|].
    assert (E : ((q - (1 # 2) / scale q) * scale q == q * scale q - (1 # 2))%Q)
      by (field; lra).
    rewrite E. exact Hlo.
  - apply Qle_shift_div_r; [exact Hs|].
    assert (E : ((q + (1 # 2) / scale q) * scale q == q * scale q + (1 # 2))%Q)
      by (field; lra).
    rewrite E. exact Hhi.
Qed.

(** Below [2 ^ (k + 1)] the scale is at least [2 ^ (22 - k)]. *)
Lemma binade_lt (q : Q) (k : Z) :
  (0 < q)%Q -> (q < pow2 k)%Q -> (binade q < k)%Z.
Proof.
  intros Hq Hk. destruct (binade_spec q Hq) as [Hlo _].
  apply pow2_lt_inv. lra.
Qed.

Lemma scale_inject (q : Q) :
  (0 < q)%Q -> (q < pow2 24)%Q ->
  exists e, (0 <= e)%Z /\ (23 - binade q = e)%Z /\ (scale q == inject_Z (2 ^ e))%Q.
Proof.
  intros Hq Hk. pose proof (binade_lt q 24 Hq Hk) as Hb.
  exists (23 - binade q)%Z. split; [lia|]. split; [reflexivity|].
  unfold scale. apply pow2_inject. lia.
Qed.

(** An integer below a value of less than [2 ^ 24] stays below its
    rounding, and one above it stays above. *)
Lemma round_single_ge (q : Q) (n : Z) :
  (0 < q)%Q -> (q < pow2 24)%Q -> (inject_Z n <= q)%Q ->
  (inject_Z n <= round_single q)%Q.
Proof.
  intros Hq Hk Hn. rewrite round_single_pos by exact Hq.
  destruct (scale_inject q Hq Hk) as [e [He [_ Hs]]].
  pose proof (scale_pos q) as Hsp.
  assert (H : (inject_Z (n * 2 ^ e) <= q * scale q)%Q).
  { rewrite inject_Z_mult, <- Hs. apply Qmult_le_compat_r; lra. }
  apply round_pos_ge in H.
  assert (E : (inject_Z (n * 2 ^ e) / scale q == inject_Z n)%Q).
  { rewrite inject_Z_mult, <- Hs. field. lra. }
  rewrite E in H. exact H.
Qed.

Lemma round_single_le (q : Q) (n : Z) :
  (0 < q)%Q -> (q < pow2 24)%Q -> (q <= inject_Z n)%Q ->
  (round_single q <= inject_Z n)%Q.
Proof.
  intros Hq Hk Hn. rewrite round_single_pos by exact Hq.
  destruct (scale_inject q Hq Hk) as [e [He [_ Hs]]].
  pose proof (scale_pos q) as Hsp.
  assert (H : (q * scale q <= inject_Z (n * 2 ^ e))%Q).
  { rewrite inject_Z_mult, <- Hs. apply Qmult_le_compat_r; lra. }
  apply round_pos_le in H.
  assert (E : (inject_Z (n * 2 ^ e) / scale q == inject_Z n)%Q).
  { rewrite inject_Z_mult, <- Hs. field. lra. }
  rewrite E in H. exact H.
Qed.

(** Integers below [2 ^ 24] are single-precision numbers. *)
Lemma round_single_integer (q : Q) (n : Z) :
  (0 <= n < 2 ^ 24)%Z -> (q == inject_Z n)%Q -> (round_single q == inject_Z n)%Q.
Proof.
  intros Hn Hq. destruct (Z.eq_dec n 0) as [->|Hne].
  - rewrite round_single_zero by exact Hq. reflexivity.
  - assert (H0 : (0 < q)%Q).
    { rewrite Hq. change 0%Q with (inject_Z 0). rewrite <- Zlt_Qlt. lia. }
    assert (H24 : (q < pow2 24)%Q).
    { rewrite Hq. change (pow2 24) with (inject_Z (2 ^ 24)).
      rewrite <- Zlt_Qlt. lia. }
    apply Qle_antisym.
    + apply round_single_le; [assumption..|]. rewrite Hq. apply Qle_refl.
    + apply round_single_ge; [assumption..|]. rewrite Hq. apply Qle_refl.
Qed.

(** A value below [4096] that is more than [2 ^ -13] under an integer is
    rounded to a number under that integer. *)
Lemma round_single_lt (q : Q) (n : Z) :
  (0 < q)%Q -> (q < 4096)%Q -> (q < inject_Z n - (1 # 8192))%Q ->
  (round_single q < inject_Z n)%Q.
Proof.
  intros Hq Hk Hn. rewrite round_single_pos by exact Hq.
  assert (Hb : (binade q < 12)%Z).
  { apply binade_lt; [exact Hq|]. exact Hk. }
  assert (H24 : (q < pow2 24)%Q).
  { apply Qlt_trans with 4096%Q; [exact Hk|reflexivity]. }
  destruct (scale_inject q Hq H24) as [e [He [Ee Hs]]].
  pose proof (scale_pos q) as Hsp.
  assert (H12 : (4096 <= scale q)%Q).
  { unfold scale. change 4096%Q with (pow2 12). apply pow2_le. lia. }
  assert (H : (q * scale q < inject_Z (n * 2 ^ e) - (1 # 2))%Q).
  { rewrite inject_Z_mult, <- Hs.
    apply Qlt_le_trans with ((inject_Z n - (1 # 8192)) * scale q)%Q.
    - apply Qmult_lt_compat_r; lra.
    - lra. }
  apply round_pos_lt in H.
  apply Qle_lt_trans with ((inject_Z (n * 2 ^ e) - 1) / scale q)%Q; [exact H|].
  apply Qlt_shift_div_r; [exact Hsp|].
  rewrite inject_Z_mult, <- Hs. lra.
Qed.

(** Multiples of [2 ^ -12] between 0 and 1 are single-precision numbers. *)
Lemma round_single_dyadic (q : Q) (x : Z) :
  (0 < x < 4096)%Z -> (q == inject_Z x / 4096)%Q -> (round_single q == q)%Q.
Proof.
  intros Hx Hq.
  assert (HX0 : (0 < inject_Z x)%Q).
  { change 0%Q with (inject_Z 0). rewrite <- Zlt_Qlt. lia. }
  assert (HX1 : (inject_Z x < 4096)%Q).
  { change 4096%Q with (inject_Z 4096). rewrite <- Zlt_Qlt. lia. }
  assert (H0 : (0 < q)%Q).
  { rewrite Hq. apply Qlt_shift_div_l; lra. }
  assert (H1 : (q < pow2 0)%Q).
  { rewrite Hq. apply Qlt_shift_div_r; [reflexivity|]. change (pow2 0) with 1%Q. lra. }
  pose proof (binade_lt q 0 H0 H1) as Hb.
  rewrite round_single_pos by exact H0.
  pose proof (scale_pos q) as Hsp.
  assert (Hs : (scale q == 4096 * inject_Z (2 ^ (11 - binade q)))%Q).
  { unfold scale. rewrite <- pow2_inject by lia.
    replace (23 - binade q)%Z with (12 + (11 - binade q))%Z by lia.
    unfold pow2. rewrite Qpower_plus by (intros H; discriminate H). reflexivity. }
  assert (E : (q * scale q == inject_Z (x * 2 ^ (11 - binade q)))%Q).
  { rewrite Hs, inject_Z_mult.
    generalize (inject_Z (2 ^ (11 - binade q))). intros z.
    rewrite Hq. field. }
  assert (E' : (inject_Z (x * 2 ^ (11 - binade q)) / scale q == q)%Q).
  { rewrite <- E. field. lra. }
  apply Qle_antisym.
  - rewrite <- E' at 2. apply round_pos_le. rewrite E. apply Qle_refl.
  - rewrite <- E' at 1. apply round_pos_ge. rewrite E. apply Qle_refl.
Qed.

(** The rounding error of a value between 0 and 1. *)
Lemma round_single_near (q : Q) :
  (0 < q)%Q -> (q < 1)%Q ->
  (q - q * (1 # 16777216) <= round_single q
   /\ round_single q <= q + (1 # 33554432))%Q.
Proof.
  intros H0 H1.
  pose proof (binade_lt q 0 H0 H1) as Hb.
  destruct (binade_spec q H0) as [Hlo _].
  rewrite round_single_pos by exact H0.
  pose proof (scale_pos q) as Hsp.
  pose proof (pow2_pos (binade q)) as Hkp.
  assert (Hs : (scale q == 8388608 / pow2 (binade q))%Q).
  { unfold scale. rewrite pow2_minus. reflexivity. }
  assert (Hh : ((1 # 2) / scale q == pow2 (binade q) * (1 # 16777216))%Q).
  { rewrite Hs. field. lra. }
  assert (Hk : (pow2 (binade q) <= 1 # 2)%Q).
  { change (1 # 2)%Q with (pow2 (-1)). apply pow2_le. lia. }
  destruct (round_pos_near q) as [Hn1 Hn2].
  rewrite Hh in Hn1, Hn2. split; lra.
Qed.

Lemma Qfloor_between (v : Q) (x : Z) :
  (inject_Z x <= v)%Q -> (v < inject_Z (x + 1))%Q -> Qfloor v = x.
Proof.
  intros Hlo Hhi.
  apply Qfloor_resp_le in Hlo. rewrite Qfloor_Z in Hlo.
  pose proof (Qfloor_le v) as Hf.
  assert (Hlt : (inject_Z (Qfloor v) < inject_Z (x + 1))%Q) by lra.
  rewrite <- Zlt_Qlt in Hlt. lia.
Qed.

(** The position of class [x] among [d + 1] classes, product first. *)
Lemma position_mul_first (dd w b : Q) (x d : Z) :
  (1 <= d <= 4096)%Z -> (1 <= x <= d)%Z -> (x <= 4095)%Z ->
  (dd == inject_Z x)%Q -> (w == inject_Z d)%Q -> (b == inject_Z (d + 1))%Q ->
  let v := round_single (round_single (dd * b) / w) in
  ((x < d)%Z -> (inject_Z x <= v /\ v < inject_Z (x + 1))%Q)
  /\ (x = d -> (v == inject_Z (d + 1))%Q).
Proof.
  intros Hd Hx Hx' Edd Ew Eb v.
  assert (Ep : (round_single (dd * b) == inject_Z (x * (d + 1)))%Q).
  { apply round_single_integer; [nia|]. rewrite Edd, Eb, inject_Z_mult. reflexivity. }
  assert (HD1 : (1 <= inject_Z d)%Q).
  { change 1%Q with (inject_Z 1). rewrite <- Zle_Qle. lia. }
  assert (HD2 : (inject_Z d <= 4096)%Q).
  { change 4096%Q with (inject_Z 4096). rewrite <- Zle_Qle. lia. }
  assert (HX1 : (1 <= inject_Z x)%Q).
  { change 1%Q with (inject_Z 1). rewrite <- Zle_Qle. lia. }
  assert (Hw0 : (0 < w)%Q) by (rewrite Ew; lra).
  set (y := (round_single (dd * b) / w)%Q) in *.
  assert (Ey : (y * inject_Z d == inject_Z x * inject_Z d + inject_Z x)%Q).
  { unfold y. rewrite Ep, Ew, inject_Z_mult, inject_Z_plus.
    change (inject_Z 1) with 1%Q. field. lra. }
  split.
  - intros Hlt.
    assert (HXD : (inject_Z x <= inject_Z d - 1)%Q).
    { change 1%Q with (inject_Z 1). unfold Qminus.
      rewrite <- inject_Z_opp, <- inject_Z_plus, <- Zle_Qle. lia. }
    assert (Hylo : (inject_Z x <= y)%Q).
    { apply Qnot_lt_le. intros Hc.
      assert (y * inject_Z d < inject_Z x * inject_Z d)%Q
        by (apply Qmult_lt_compat_r; lra).
      lra. }
    assert (Hyhi : (y < inject_Z (x + 1) - (1 # 8192))%Q).
    { rewrite inject_Z_plus. change (inject_Z 1) with 1%Q.
      apply Qnot_le_lt. intros Hc.
      assert ((inject_Z x + 1 - (1 # 8192)) * inject_Z d <= y * inject_Z d)%Q
        by (apply Qmult_le_compat_r; lra).
      lra. }
    assert (Hy4 : (y < 4096)%Q).
    { rewrite inject_Z_plus in Hyhi. change (inject_Z 1) with 1%Q in Hyhi. lra. }
    assert (Hy24 : (y < pow2 24)%Q).
    { apply Qlt_trans with 4096%Q; [exact Hy4|reflexivity]. }
    split.
    + apply round_single_ge; [lra|exact Hy24|exact Hylo].
    + apply round_single_lt; [lra|exact Hy4|exact Hyhi].
  - intros ->.
    apply round_single_integer; [lia|].
    apply Qmult_inj_r with (inject_Z d); [lra|].
    rewrite Ey, inject_Z_plus. change (inject_Z 1) with 1%Q. ring.
Qed.

(** The position of class [x] among [d + 1] classes, quotient first. *)
Lemma position_div_first (dd w b : Q) (x d : Z) :
  (1 <= d <= 4096)%Z -> (1 <= x <= d)%Z ->
  (dd == inject_Z x)%Q -> (w == inject_Z d)%Q -> (b == inject_Z (d + 1))%Q ->
  let v := round_single (round_single (dd / w) * b) in
  ((x < d)%Z -> (inject_Z x <= v /\ v < inject_Z (x + 1))%Q)
  /\ (x = d -> (v == inject_Z (d + 1))%Q).
Proof.
  intros Hd Hx Edd Ew Eb v.
  assert (HD1 : (1 <= inject_Z d)%Q).
  { change 1%Q with (inject_Z 1). rewrite <- Zle_Qle. lia. }
  assert (HD2 : (inject_Z d <= 4096)%Q).
  { change 4096%Q with (inject_Z 4096). rewrite <- Zle_Qle. lia. }
  assert (HX1 : (1 <= inject_Z x)%Q).
  { change 1%Q with (inject_Z 1). rewrite <- Zle_Qle. lia. }
  assert (Eb' : (b == inject_Z d + 1)%Q).
  { rewrite Eb, inject_Z_plus. reflexivity. }
  set (r := (dd / w)%Q) in *.
  assert (Er : (r * inject_Z d == inject_Z x)%Q).
  { unfold r. rewrite Edd, Ew. field. lra. }
  split.
  - intros Hlt.
    assert (HXD : (inject_Z x <= inject_Z d - 1)%Q).
    { change 1%Q with (inject_Z 1). unfold Qminus.
      rewrite <- inject_Z_opp, <- inject_Z_plus, <- Zle_Qle. lia. }
    assert (Hr0 : (0 < r)%Q).
    { apply Qnot_le_lt. intros Hc.
      assert (r * inject_Z d <= 0 * inject_Z d)%Q
        by (apply Qmult_le_compat_r; lra).
      lra. }
    assert (Hr1 : (r < 1)%Q).
    { apply Qnot_le_lt. intros Hc.
      assert (1 * inject_Z d <= r * inject_Z d)%Q
        by (apply Qmult_le_compat_r; lra).
      lra. }
    set (t := round_single r) in *.
    set (y := (t * b)%Q) in *.
    assert (Hy : (inject_Z x <= y /\ y < inject_Z (x + 1) - (1 # 8192))%Q).
    { rewrite inject_Z_plus. change (inject_Z 1) with 1%Q.
      destruct (Z.eq_dec d 4096) as [E4|N4].
      - assert (Et : (t == r)%Q).
        { apply (round_single_dyadic r x); [lia|].
          unfold r. rewrite Edd, Ew, E4. reflexivity. }
        assert (ED : (inject_Z d == 4096)%Q) by (rewrite E4; reflexivity).
        assert (Ey : (y == inject_Z x + r)%Q).
        { unfold y. rewrite Et, Eb'. rewrite <- Er. ring. }
        assert (Er' : (r == inject_Z x / 4096)%Q).
        { unfold r. rewrite Edd, Ew, E4. reflexivity. }
        assert (Hr2 : (r <= 4095 # 4096)%Q).
        { rewrite Er'. apply Qle_shift_div_r; [reflexivity|]. lra. }
        rewrite Ey. split; lra.
      - assert (HD3 : (inject_Z d <= 4095)%Q).
        { change 4095%Q with (inject_Z 4095). rewrite <- Zle_Qle. lia. }
        destruct (round_single_near r Hr0 Hr1) as [Ht1 Ht2]. fold t in Ht1, Ht2.
        assert (Hrd : (r * inject_Z d <= r * 4095)%Q).
        { rewrite (Qmult_comm r (inject_Z d)), (Qmult_comm r 4095).
          apply Qmult_le_compat_r; lra. }
        assert (H1r : ((1 - r) * inject_Z d <= (1 - r) * 4095)%Q).
        { rewrite (Qmult_comm (1 - r) (inject_Z d)), (Qmult_comm (1 - r) 4095).
          apply Qmult_le_compat_r; lra. }
        assert (Hb0 : (0 <= inject_Z d + 1)%Q) by lra.
        assert (Hylo : ((r - r * (1 # 16777216)) * (inject_Z d + 1) <= y)%Q).
        { unfold y. rewrite Eb'. apply Qmult_le_compat_r; assumption. }
        assert (Hyhi : (y <= (r + (1 # 33554432)) * (inject_Z d + 1))%Q).
        { unfold y. rewrite Eb'. apply Qmult_le_compat_r; assumption. }
        split; lra. }
    destruct Hy as [Hylo Hyhi].
    assert (Hy4 : (y < 4096)%Q).
    { rewrite inject_Z_plus in Hyhi. change (inject_Z 1) with 1%Q in Hyhi. lra. }
    assert (Hy24 : (y < pow2 24)%Q).
    { apply Qlt_trans with 4096%Q; [exact Hy4|reflexivity]. }
    split.
    + apply round_single_ge; [lra|exact Hy24|exact Hylo].
    + apply round_single_lt; [lra|exact Hy4|exact Hyhi].
  - intros ->.
    assert (Et : (round_single r == inject_Z 1)%Q).
    { apply round_single_integer; [lia|].
      apply Qmult_inj_r with (inject_Z d); [lra|].
      rewrite Er. change (inject_Z 1) with 1%Q. ring. }
    apply round_single_integer; [lia|].
    rewrite Et, Eb. change (inject_Z 1) with 1%Q. ring.
Qed.

(** For up to 4097 classes the single-precision bin of a class index is the
    class, whether the position is computed product first or quotient
    first. *)
Lemma bin_of_single_class (mul_first : bool) (C : nat) (x : Z) :
  2 <= C <= 4097 -> (0 <= x <= Z.of_nat C - 1)%Z ->
  bin_of_single mul_first C 0 (inject_Z (Z.of_nat C - 1)) (inject_Z x)
  = Z.to_nat x.
Proof.
  intros HC Hx. unfold bin_of_single, position_single.
  set (d := (Z.of_nat C - 1)%Z) in *.
  assert (Hd : (1 <= d <= 4096)%Z) by (unfold d; lia).
  assert (Ew : (round_single (inject_Z d - 0) == inject_Z d)%Q).
  { apply round_single_integer; [lia|]. ring. }
  assert (Eb : (round_single (inject_Z (Z.of_nat C)) == inject_Z (d + 1))%Q).
  { apply round_single_integer; [lia|]. unfold d.
    replace (Z.of_nat C - 1 + 1)%Z with (Z.of_nat C) by lia. reflexivity. }
  destruct (Z.eq_dec x 0) as [->|Hx0].
  - rewrite (round_single_zero (inject_Z 0 - 0)) by reflexivity.
    destruct mul_first.
    + match goal with |- context [round_single (0 * ?b)] =>
        rewrite (round_single_zero (0 * b)) by ring end.
      match goal with |- context [round_single (0 / ?w)] =>
        rewrite (round_single_zero (0 / w)) by (unfold Qdiv; ring) end.
      reflexivity.
    + match goal with |- context [round_single (0 / ?w)] =>
        rewrite (round_single_zero (0 / w)) by (unfold Qdiv; ring) end.
      match goal with |- context [round_single (0 * ?b)] =>
        rewrite (round_single_zero (0 * b)) by ring end.
      reflexivity.
  - assert (Edd : (round_single (inject_Z x - 0) == inject_Z x)%Q).
    { apply round_single_integer; [lia|]. ring. }
    assert (Hfin :
      forall v : Q,
        ((x < d)%Z -> (inject_Z x <= v /\ v < inject_Z (x + 1))%Q)
        /\ (x = d -> (v == inject_Z (d + 1))%Q) ->
        Nat.min (Z.to_nat (Qfloor v)) (C - 1) = Z.to_nat x).
    { intros v [Hlt Heq]. destruct (Z.eq_dec x d) as [E|N].
      - rewrite (Qfloor_comp _ _ (Heq E)), Qfloor_Z. unfold d in *. lia.
      - destruct Hlt as [Hlo Hhi]; [lia|].
        rewrite (Qfloor_between v x Hlo Hhi). unfold d in *. lia. }
    destruct mul_first.
    + destruct (Z_le_gt_dec x 4095) as [Hs|Hb].
      * apply Hfin. apply position_mul_first; try assumption; lia.
      * assert (E1 : x = 4096%Z) by lia.
        assert (E2 : C = 4097) by (unfold d in *; lia).
        subst x C. vm_compute. reflexivity.
    + apply Hfin. apply position_div_first; try assumption; lia.
Qed.

(** The bin of an integer [x] of [0, C - 1] in a histogram of [C >= 2] bins
    over that range is [x] itself. *)
Lemma bin_of_class (C : nat) (x : Z) :
  2 <= C -> (0 <= x <= Z.of_nat C - 1)%Z ->
  bin_of C 0 (inject_Z (Z.of_nat C - 1)) (inject_Z x) = Z.to_nat x.
Proof.
  intros HC Hx. unfold bin_of.
  set (c1 := (Z.of_nat C - 1)%Z).
  assert (Hc1 : (0 < c1)%Z) by (unfold c1; lia).
  assert (E : ((inject_Z x - 0) / (inject_Z c1 - 0) * inject_Z (Z.of_nat C)
               == (x * Z.of_nat C) # (Z.to_pos c1))%Q).
  { unfold Qeq, Qdiv, Qmult, Qminus, Qplus, Qopp, Qinv, inject_Z; simpl.
    destruct c1 as [|p|p] eqn:Ec; try lia. simpl.
    rewrite !Z.mul_1_r, !Z.add_0_r. simpl. rewrite ?Pos.mul_1_r.
    rewrite ?Z.mul_1_r. nia. }
  rewrite (Qfloor_comp _ _ E). simpl.
  rewrite Z2Pos.id by lia.
  replace (x * Z.of_nat C)%Z with (x + x * c1)%Z by (unfold c1; lia).
  rewrite Z.div_add by lia.
  destruct (Z.eq_dec x c1) as [->|Hne].
  - rewrite Z.div_same by lia. unfold c1. lia.
  - rewrite Z.div_small by lia. unfold c1 in *. lia.
Qed.

Lemma in_bin_class (C k : nat) (x : Z) :
  2 <= C -> k < C ->
  in_bin C 0 (inject_Z (Z.of_nat C - 1)) k (of_Z x) = (x =? Z.of_nat k)%Z.
Proof.
  intros HC Hk. unfold in_bin, of_Z, in_range.
  destruct (Qle_bool 0 (inject_Z x)) eqn:E0; simpl.
  - apply Qle_bool_iff in E0.
    replace 0%Q with (inject_Z 0) in E0 by reflexivity.
    rewrite <- Zle_Qle in E0.
    destruct (Qle_bool (inject_Z x) (inject_Z (Z.of_nat C - 1))) eqn:E1; simpl.
    + apply Qle_bool_iff in E1. rewrite <- Zle_Qle in E1.
      rewrite bin_of_class by lia.
      destruct (Z.eqb_spec x (Z.of_nat k)) as [->|Hne].
      * rewrite Nat2Z.id. apply Nat.eqb_refl.
      * apply Nat.eqb_neq. lia.
    + symmetry. apply Z.eqb_neq. intros ->.
      assert (Qle_bool (inject_Z (Z.of_nat k)) (inject_Z (Z.of_nat C - 1)) = true).
      { apply Qle_bool_iff. rewrite <- Zle_Qle. lia. }
      congruence.
  - symmetry. apply Z.eqb_neq. intros ->.
    assert (Qle_bool 0 (inject_Z (Z.of_nat k)) = true).
    { apply Qle_bool_iff. replace 0%Q with (inject_Z 0) by reflexivity.
      rewrite <- Zle_Qle. lia. }
    congruence.
Qed.

Lemma hist_count_class (C k : nat) (l : list Z) :
  2 <= C -> k < C ->
  length (filter (in_bin C 0 (inject_Z (Z.of_nat C - 1)) k) (map of_Z l))
  = count_class k l.
Proof.
  intros HC Hk. unfold count_class.
  induction l as [|x l IH]; [reflexivity|].
  cbn [map filter]. rewrite in_bin_class by assumption.
  destruct (x =? Z.of_nat k)%Z; cbn [length]; now rewrite IH.
Qed.

(** For 2 to 4097 classes single precision puts every class index in its
    exact bin, in either order of the operations; with one class there is
    one bin. *)
Lemma bin_of_single_exact (mul_first : bool) (C : nat) (x : Z) :
  2 <= C <= 4097 -> (0 <= x <= Z.of_nat C - 1)%Z ->
  bin_of_single mul_first C 0 (inject_Z (Z.of_nat C - 1)) (inject_Z x)
  = bin_of C 0 (inject_Z (Z.of_nat C - 1)) (inject_Z x).
Proof.
  intros HC Hx. rewrite bin_of_single_class by assumption.
  symmetry. apply bin_of_class; [lia|exact Hx].
Qed.

Lemma bin_of_single_one_class (mul_first : bool) (mn mx q : Q) :
  bin_of_single mul_first 1 mn mx q = bin_of 1 mn mx q.
Proof. unfold bin_of_single, bin_of. cbn [Nat.sub]. now rewrite !Nat.min_0_r. Qed.

(** So for up to 4097 classes the histogram of [calculate_weights] counts
    every label in the bin in which single precision counts it: over the
    range of the class indices for two classes or more, over the range of
    the data for one. *)
Lemma in_bin_single_exact (mul_first : bool) (C k : nat) (x : Z) :
  2 <= C <= 4097 ->
  in_bin_single mul_first C 0 (inject_Z (Z.of_nat C - 1)) k (of_Z x)
  = in_bin C 0 (inject_Z (Z.of_nat C - 1)) k (of_Z x).
Proof.
  intros HC. unfold in_bin_single, in_bin, of_Z.
  destruct (in_range 0 (inject_Z (Z.of_nat C - 1)) (Fin (inject_Z x))) eqn:E;
    [|reflexivity].
  cbn [andb]. rewrite bin_of_single_exact; [reflexivity|lia|].
  unfold in_range in E. apply andb_true_iff in E as [E0 E1].
  apply Qle_bool_iff in E0, E1.
  change 0%Q with (inject_Z 0) in E0.
  rewrite <- Zle_Qle in E0, E1. lia.
Qed.

Lemma in_bin_single_one_class (mul_first : bool) (mn mx : Q) (k : nat)
    (x : fval) :
  in_bin_single mul_first 1 mn mx k x = in_bin 1 mn mx k x.
Proof.
  unfold in_bin_single, in_bin. destruct x; [|reflexivity..].
  now rewrite bin_of_single_one_class.
Qed.

Lemma fold_fadd_of_nat (ns : list nat) (q0 : Q) :
  exists q, fold_left fadd (map of_nat ns) (Fin q0) = Fin q
            /\ (q == q0 + Qnat (list_sum ns))%Q.
Proof.
  revert q0. induction ns as [|n ns IH]; intros q0.
  - exists q0. split; [reflexivity|]. unfold Qnat. simpl.
    change (inject_Z 0) with 0%Q. lra.
  - cbn [map fold_left]. unfold of_nat at 1, of_Z, fadd at 2.
    destruct (IH (q0 + inject_Z (Z.of_nat n))%Q) as [q [E Hq]].
    exists q. split; [exact E|]. rewrite Hq. unfold Qnat.
    change (list_sum (n :: ns)) with (n + list_sum ns).
    rewrite Nat2Z.inj_add, inject_Z_plus. lra.
Qed.

Lemma fsum_of_nat (ns : list nat) :
  exists q, fsum (map of_nat ns) = Fin q /\ (q == Qnat (list_sum ns))%Q.
Proof.
  destruct (fold_fadd_of_nat ns 0) as [q [E Hq]].
  exists q. split; [exact E|]. rewrite Hq. lra.
Qed.

Lemma list_sum_map_add {A} (f g : A -> nat) (l : list A) :
  list_sum (map (fun a => f a + g a) l) = list_sum (map f l) + list_sum (map g l).
Proof. induction l as [|a l IH]; simpl; lia. Qed.

Lemma sum_indicator (C : nat) (x : Z) :
  list_sum (map (fun k => if (x =? Z.of_nat k)%Z then 1 else 0) (seq 0 C))
  = if ((0 <=? x)%Z && (x <=? Z.of_nat C - 1)%Z) then 1 else 0.
Proof.
  induction C as [|C IH].
  - simpl. destruct (0 <=? x)%Z eqn:E0, (x <=? -1)%Z eqn:E1; simpl; try reflexivity.
    apply Z.leb_le in E0. apply Z.leb_le in E1. lia.
  - rewrite seq_S, map_app, list_sum_app, IH. cbn [map list_sum Nat.add].
    destruct (Z.eqb_spec x (Z.of_nat C)) as [->|Hne].
    + replace (0 <=? Z.of_nat C)%Z with true by (symmetry; apply Z.leb_le; lia).
      replace (Z.of_nat C <=? Z.of_nat C - 1)%Z with false
        by (symmetry; apply Z.leb_gt; lia).
      replace (Z.of_nat C <=? Z.of_nat (S C) - 1)%Z with true
        by (symmetry; apply Z.leb_le; lia).
      reflexivity.
    + destruct (0 <=? x)%Z eqn:E0; cbn [andb]; [|reflexivity].
      destruct (Z.leb_spec x (Z.of_nat C - 1)), (Z.leb_spec x (Z.of_nat (S C) - 1));
        try reflexivity; lia.
Qed.

(** The bins of the classes partition the class indices among the labels. *)
Lemma sum_count_class (C : nat) (l : list Z) :
  list_sum (map (fun k => count_class k l) (seq 0 C)) = count_valid C l.
Proof.
  induction l as [|x l IH].
  - unfold count_class, count_valid. simpl.
    induction (seq 0 C); simpl; auto.
  - transitivity
      (list_sum (map (fun k => (if (x =? Z.of_nat k)%Z then 1 else 0)
                               + count_class k l) (seq 0 C))).
    + f_equal. apply map_ext. intros k. unfold count_class. cbn [filter].
      destruct (x =? Z.of_nat k)%Z; reflexivity.
    + rewrite list_sum_map_add, IH, sum_indicator.
      unfold count_valid. cbn [filter].
      destruct ((0 <=? x)%Z && (x <=? Z.of_nat C - 1)%Z); reflexivity.
Qed.

Lemma count_class_le_valid (C k : nat) (l : list Z) :
  k < C -> count_class k l <= count_valid C l.
Proof.
  intros Hk. unfold count_class, count_valid.
  induction l as [|x l IH]; [simpl; lia|].
  cbn [filter].
  destruct (Z.eqb_spec x (Z.of_nat k)) as [->|Hne].
  - replace ((0 <=? Z.of_nat k)%Z && (Z.of_nat k <=? Z.of_nat C - 1)%Z) with true.
    + simpl. lia.
    + symmetry. apply andb_true_iff. split; apply Z.leb_le; lia.
  - destruct ((0 <=? x)%Z && (x <=? Z.of_nat C - 1)%Z); simpl; lia.
Qed.

Lemma count_valid_pos (C : nat) (l : list Z) :
  (exists x, In x l /\ (0 <= x <= Z.of_nat C - 1)%Z) -> 0 < count_valid C l.
Proof.
  intros [x [Hin Hx]]. unfold count_valid.
  induction l as [|y l IH]; [destruct Hin|].
  cbn [filter]. destruct Hin as [->|Hin].
  - replace ((0 <=? x)%Z && (x <=? Z.of_nat C - 1)%Z) with true.
    + simpl. lia.
    + symmetry. apply andb_true_iff. split; apply Z.leb_le; lia.
  - specialize (IH Hin).
    destruct ((0 <=? y)%Z && (y <=? Z.of_nat C - 1)%Z); simpl; lia.
Qed.

Lemma combine_map_r {A B} (f : A -> B) (l : list A) :
  combine l (map f l) = map (fun a => (a, f a)) l.
Proof. induction l as [|a l IH]; simpl; [reflexivity|now rewrite IH]. Qed.

(** For at least two classes the histogram counts the classes, and the
    weights are computed entry by entry from the counts. *)
Lemma calculate_weights_counts (label : tensor Z) (C : nat) (norm : bool)
    (ub : fval) :
  2 <= C ->
  calculate_weights label C norm ub
  = Ok (mkTensor [C]
          (map (fun k =>
                  weight_entry norm ub (of_nat (count_class k (data label)))
                    (fsum (map (fun k => of_nat (count_class k (data label)))
                               (seq 0 C))))
               (seq 0 C))).
Proof.
  intros HC. unfold calculate_weights, histc.
  replace (C =? 0) with false by (symmetry; apply Nat.eqb_neq; lia).
  assert (Hle : Qle_bool 0 (inject_Z (Z.of_nat C - 1)) = true).
  { apply Qle_bool_iff. replace 0%Q with (inject_Z 0) by reflexivity.
    rewrite <- Zle_Qle. lia. }
  rewrite Hle. cbn [negb orb]. unfold histc_range.
  assert (Hne : Qeq_bool 0 (inject_Z (Z.of_nat C - 1)) = false).
  { destruct (Qeq_bool 0 (inject_Z (Z.of_nat C - 1))) eqn:E; [|reflexivity].
    apply Qeq_bool_iff in E. replace 0%Q with (inject_Z 0) in E by reflexivity.
    apply (proj1 (inject_Z_injective 0 (Z.of_nat C - 1))) in E. lia. }
  rewrite Hne. cbn [rbind tmap shape data float].
  assert (Hd : map (fun k =>
                      of_nat (length (filter (in_bin C 0 (inject_Z (Z.of_nat C - 1)) k)
                                             (map of_Z (data label)))))
                   (seq 0 C)
               = map (fun k => of_nat (count_class k (data label))) (seq 0 C)).
  { apply map_ext_in. intros k Hk. apply in_seq in Hk.
    now rewrite hist_count_class by lia. }
  rewrite Hd. f_equal. f_equal.
  rewrite combine_map_r.
  destruct norm; rewrite !map_map; apply map_ext; intros k; reflexivity.
Qed.

Lemma Qdiv_unit_interval (a b : Q) :
  (0 <= a)%Q -> (a <= b)%Q -> (0 < b)%Q -> (0 <= a / b /\ a / b <= 1)%Q.
Proof.
  intros Ha Hab Hb. split.
  - apply Qle_shift_div_l; [exact Hb|]. lra.
  - apply Qle_shift_div_r; [exact Hb|]. lra.
Qed.

Lemma Qinv_pos_nonneg (x : Q) : (0 < x)%Q -> (0 <= 1 / x)%Q.
Proof.
  intros Hx. apply Qle_shift_div_l; [exact Hx|]. lra.
Qed.

(** The value of one entry for a class that occurs [c] times among [t > 0]
    class indices. *)
Lemma weight_entry_value (norm : bool) (u : Q) (c t : nat) (q : Q) :
  (0 <= u)%Q -> c <= t -> 0 < t -> (q == Qnat t)%Q ->
  exists v, weight_entry norm (Fin u) (of_nat c) (Fin q) = Fin v
            /\ (v == class_weight_formula norm u c t)%Q
            /\ (1 <= v)%Q.
Proof.
  intros Hu Hct Ht Hq.
  assert (Hqpos : (0 < q)%Q) by (rewrite Hq; now apply Qnat_pos).
  assert (Hc0 : (0 <= Qnat c)%Q) by apply Qnat_nonneg.
  assert (Hcq : (Qnat c <= q)%Q) by (rewrite Hq; now apply Qnat_le).
  destruct (Qdiv_unit_interval (Qnat c) q Hc0 Hcq Hqpos) as [Hn0 Hn1].
  assert (Heps : (0 < eps)%Q) by reflexivity.
  assert (Hden : (0 < Qnat c / q + eps)%Q) by lra.
  pose proof (Qinv_pos_nonneg _ Hden) as Hinv.
  unfold weight_entry, of_nat, of_Z. fold (Qnat c).
  cbn [fdiv fnonzero]. rewrite (Qzero_false q Hqpos).
  unfold class_weight_formula.
  destruct (Nat.eqb_spec c 0) as [->|Hne].
  - rewrite (Qzero_true (Qnat 0)) by reflexivity. cbn [negb of_bool].
    destruct norm; cbn [f0 f1 fadd fsub fneg fmul fdiv].
    + rewrite (Qzero_false _ Hden). cbn [fmul fadd].
      eexists. split; [reflexivity|]. split; lra.
    + eexists. split; [reflexivity|]. split; lra.
  - assert (Hcpos : (0 < Qnat c)%Q) by (apply Qnat_pos; lia).
    rewrite (Qzero_false _ Hcpos). cbn [negb of_bool].
    destruct norm; cbn [f0 f1 fadd fsub fneg fmul fdiv].
    + rewrite (Qzero_false _ Hden). cbn [fmul fadd].
      eexists. split; [reflexivity|]. split.
      * rewrite Hq. lra.
      * assert (0 <= u * (1 / (Qnat c / q + eps)))%Q
          by (apply Qmult_le_0_compat; assumption).
        lra.
    + eexists. split; [reflexivity|]. split.
      * rewrite Hq. lra.
      * assert (0 <= u * (1 + - (Qnat c / q)))%Q
          by (apply Qmult_le_0_compat; lra).
        lra.
Qed.

Lemma nth_map_seq {A} (f : nat -> A) (n k : nat) (d : A) :
  k < n -> nth k (map f (seq 0 n)) d = f k.
Proof.
  intros Hk. rewrite (nth_indep _ d (f 0)) by (rewrite length_map, length_seq; lia).
  rewrite map_nth, seq_nth by lia. reflexivity.
Qed.

Lemma count_valid_none (C : nat) (l : list Z) :
  (forall x, In x l -> ~ (0 <= x <= Z.of_nat C - 1)%Z) -> count_valid C l = 0.
Proof.
  intros H. unfold count_valid. induction l as [|x l IH]; [reflexivity|].
  cbn [filter].
  destruct (Z.leb_spec 0 x), (Z.leb_spec x (Z.of_nat C - 1)); cbn [andb];
    try (apply IH; intros y Hy; apply H; now right).
  exfalso. apply (H x); [now left|lia].
Qed.

Lemma map_const_seq {A} (a : A) (n : nat) :
  map (fun _ => a) (seq 0 n) = repeat a n.
Proof.
  generalize 0. induction n as [|n IH]; intros s; simpl; [reflexivity|].
  now rewrite IH.
Qed.

(** With an empty total every entry is NaN, whatever the upper bound. *)
Lemma weight_entry_empty (norm : bool) (ub : fval) (q : Q) :
  (q == 0)%Q -> weight_entry norm ub (of_nat 0) (Fin q) = NaN.
Proof.
  intros Hq. unfold weight_entry, of_nat, of_Z.
  cbn [fdiv]. rewrite (Qzero_true q Hq).
  unfold inf_signed. rewrite (Qzero_true (inject_Z (Z.of_nat 0))) by reflexivity.
  destruct norm; cbn [negb of_bool fnonzero];
    destruct ub; reflexivity.
Qed.

(** *** One class: the range of the histogram is taken from the data *)

Lemma float_values_finite (l : list Z) : forallb is_fin (map of_Z l) = true.
Proof. induction l as [|x l IH]; [reflexivity|exact IH]. Qed.

Lemma fin_values_float (l : list Z) : fin_values (map of_Z l) = map inject_Z l.
Proof.
  unfold fin_values. induction l as [|x l IH]; [reflexivity|].
  cbn [map flat_map of_Z app]. now rewrite IH.
Qed.

Lemma Qmin_list_le (l : list Q) (q0 : Q) :
  (Qmin_list q0 l <= q0)%Q /\ forall q, In q l -> (Qmin_list q0 l <= q)%Q.
Proof.
  revert q0. induction l as [|b l IH]; intros q0.
  - split; [apply Qle_refl|intros q []].
  - unfold Qmin_list in *. cbn [fold_left].
    destruct (IH (if Qle_bool b q0 then b else q0)) as [H1 H2].
    assert (Hm : ((if Qle_bool b q0 then b else q0) <= q0
                  /\ (if Qle_bool b q0 then b else q0) <= b)%Q).
    { destruct (Qle_bool b q0) eqn:E.
      - apply Qle_bool_iff in E. split; [exact E|apply Qle_refl].
      - split; [apply Qle_refl|]. apply Qlt_le_weak, Qnot_le_lt.
        intros Hc. apply Qle_bool_iff in Hc. congruence. }
    split.
    + eapply Qle_trans; [exact H1|apply Hm].
    + intros q [<-|Hin]; [eapply Qle_trans; [exact H1|apply Hm]|now apply H2].
Qed.

Lemma Qmax_list_ge (l : list Q) (q0 : Q) :
  (q0 <= Qmax_list q0 l)%Q /\ forall q, In q l -> (q <= Qmax_list q0 l)%Q.
Proof.
  revert q0. induction l as [|b l IH]; intros q0.
  - split; [apply Qle_refl|intros q []].
  - unfold Qmax_list in *. cbn [fold_left].
    destruct (IH (if Qle_bool q0 b then b else q0)) as [H1 H2].
    assert (Hm : (q0 <= (if Qle_bool q0 b then b else q0)
                  /\ b <= (if Qle_bool q0 b then b else q0))%Q).
    { destruct (Qle_bool q0 b) eqn:E.
      - apply Qle_bool_iff in E. split; [exact E|apply Qle_refl].
      - split; [apply Qle_refl|]. apply Qlt_le_weak, Qnot_le_lt.
        intros Hc. apply Qle_bool_iff in Hc. congruence. }
    split.
    + eapply Qle_trans; [apply Hm|exact H1].
    + intros q [<-|Hin]; [eapply Qle_trans; [apply Hm|exact H1]|now apply H2].
Qed.

Lemma filter_all {A} (f : A -> bool) (l : list A) :
  (forall a, In a l -> f a = true) -> filter f l = l.
Proof.
  induction l as [|a l IH]; intros H; [reflexivity|].
  cbn [filter]. rewrite (H a) by now left.
  f_equal. apply IH. intros b Hb. apply H. now right.
Qed.

(** With one bin every label is counted in it, whatever its value. *)
Lemma histc_one_bin (s : list nat) (l : list Z) :
  l <> [] ->
  histc (mkTensor s (map of_Z l)) 1 0 (inject_Z (Z.of_nat 1 - 1))
  = Ok (mkTensor [1] [of_nat (length l)]).
Proof.
  intros Hl. unfold histc, histc_range. cbn [data].
  change (Qle_bool 0 (inject_Z (Z.of_nat 1 - 1))) with true.
  change (Qeq_bool 0 (inject_Z (Z.of_nat 1 - 1))) with true.
  cbn [Nat.eqb orb negb]. rewrite float_values_finite, fin_values_float.
  destruct l as [|x l]; [congruence|]. clear Hl.
  cbn [map]. fold (map of_Z (x :: l)).
  set (lo := Qmin_list (inject_Z x) (map inject_Z l)).
  set (hi := Qmax_list (inject_Z x) (map inject_Z l)).
  assert (Hin : forall y, In y (x :: l)
                          -> (lo <= inject_Z y /\ inject_Z y <= hi)%Q).
  { intros y [<-|Hy].
    - split; [apply (proj1 (Qmin_list_le _ _))|apply (proj1 (Qmax_list_ge _ _))].
    - split; [apply (proj2 (Qmin_list_le _ _))|apply (proj2 (Qmax_list_ge _ _))];
        now apply in_map. }
  assert (Hall : forall lo' hi', (lo' <= lo)%Q -> (hi <= hi')%Q ->
            filter (in_bin 1 lo' hi' 0) (map of_Z (x :: l)) = map of_Z (x :: l)).
  { intros lo' hi' Hlo Hhi. apply filter_all. intros a Ha.
    apply in_map_iff in Ha as [y [<- Hy]]. destruct (Hin y Hy) as [H1 H2].
    unfold in_bin, of_Z, in_range, bin_of. cbn [Nat.sub].
    rewrite Nat.min_0_r. cbn [Nat.eqb]. rewrite andb_true_r.
    apply andb_true_iff. split; apply Qle_bool_iff; lra. }
  destruct (Qeq_bool lo hi); cbn [rbind seq map];
    rewrite Hall by lra; now rewrite length_map.
Qed.

Lemma calculate_weights_one_class (label : tensor Z) (norm : bool) (ub : fval) :
  data label <> [] ->
  calculate_weights label 1 norm ub
  = Ok (mkTensor [1]
          [weight_entry norm ub (of_nat (length (data label)))
             (fsum [of_nat (length (data label))])]).
Proof.
  intros Hl. unfold calculate_weights, float, tmap.
  rewrite histc_one_bin by exact Hl.
  cbn [rbind shape data map combine]. destruct norm; reflexivity.
Qed.

Lemma count_valid_one_class (l : list Z) : count_valid 1 l = count_class 0 l.
Proof.
  pose proof (sum_count_class 1 l) as H.
  unfold list_sum in H. cbn [seq map fold_right] in H. lia.
Qed.

(** The weight of a class that makes up all of the counted labels. *)
Lemma class_weight_formula_whole (norm : bool) (u : Q) (n m : nat) :
  0 < n -> 0 < m ->
  (class_weight_formula norm u n n == class_weight_formula norm u m m)%Q.
Proof.
  intros Hn Hm. unfold class_weight_formula.
  replace (n =? 0) with false by (symmetry; apply Nat.eqb_neq; lia).
  replace (m =? 0) with false by (symmetry; apply Nat.eqb_neq; lia).
  pose proof (Qnat_pos n Hn) as Pn. pose proof (Qnat_pos m Hm) as Pm.
  assert (En : (Qnat n / Qnat n == 1)%Q) by (field; lra).
  assert (Em : (Qnat m / Qnat m == 1)%Q) by (field; lra).
  destruct norm; rewrite En, Em; reflexivity.
Qed.

(** Inside [upper_bound_limit] no weight leaves the finite range of single
    precision: the exact value is at most one above the largest number,
    which is rounded to that number. *)
Lemma class_weight_formula_finite (norm : bool) (u : Q) (c t : nat) :
  (0 <= u <= upper_bound_limit norm)%Q -> c <= t -> 0 < t ->
  (class_weight_formula norm u c t <= single_max + 1)%Q.
Proof.
  intros [Hu0 Hu1] Hct Ht.
  assert (Hmax : (0 <= single_max)%Q) by (apply Qle_bool_iff; vm_compute; reflexivity).
  pose proof (Qnat_pos t Ht) as Pt. pose proof (Qnat_nonneg c) as Pc.
  pose proof (Qnat_le c t Hct) as Hle.
  destruct (Qdiv_unit_interval (Qnat c) (Qnat t) Pc Hle Pt) as [Hn0 Hn1].
  unfold class_weight_formula.
  destruct (c =? 0); [lra|].
  destruct norm; unfold upper_bound_limit in Hu1.
  - assert (Heps : (eps == 1 # 1000000)%Q) by reflexivity.
    rewrite Heps in Hu1.
    assert (Hf : (1 / (Qnat c / Qnat t + eps) <= 1000000)%Q).
    { apply Qle_shift_div_r; lra. }
    assert (Hf0 : (0 <= 1 / (Qnat c / Qnat t + eps))%Q)
      by (apply Qinv_pos_nonneg; lra).
    assert (Hp : (u * (1 / (Qnat c / Qnat t + eps)) <= u * 1000000)%Q).
    { rewrite (Qmult_comm u (1 / _)), (Qmult_comm u 1000000).
      apply Qmult_le_compat_r; assumption. }
    lra.
  - assert (Hp : (u * (1 - Qnat c / Qnat t) <= u * 1)%Q).
    { rewrite (Qmult_comm u (1 - _)), (Qmult_comm u 1).
      apply Qmult_le_compat_r; lra. }
    lra.
Qed.

(** C5 (as amended): for 1 to 4097 classes, an upper bound from 0 to
    [upper_bound_limit] and a label tensor that holds at least one class
    index of [0, C - 1] (with one class and no normalisation: at least one
    label of any value), [calculate_weights] returns a vector of exactly
    [C] entries; the entry of class [k] is 1 when the class is absent, and
    otherwise [u * (1 / (histNorm + eps)) + 1] with normalisation and
    [u * (1 - histNorm) + 1] without, where [histNorm] is the share of the
    class among the class indices; every entry is at least 1.  These are
    the class counts for which single precision puts every class index in
    its own bin ([bin_of_single_exact]) and the upper bounds for which no
    weight becomes an infinity ([class_weight_formula_finite]). *)
Theorem calculate_weights_entries (label : tensor Z) (C : nat) (norm : bool)
    (u : Q) :
  1 <= C <= 4097 ->
  (0 <= u <= upper_bound_limit norm)%Q ->
  ((exists x, In x (data label) /\ (0 <= x <= Z.of_nat C - 1)%Z)
   \/ (C = 1 /\ norm = false /\ data label <> [])) ->
  exists w,
    calculate_weights label C norm (Fin u) = Ok (mkTensor [C] w)
    /\ length w = C
    /\ forall k, k < C ->
         feq (nth k w NaN)
             (Fin (class_weight_formula norm u (count_class k (data label))
                     (count_valid C (data label))))
         /\ (count_class k (data label) = 0 -> feq (nth k w NaN) f1)
         /\ fle f1 (nth k w NaN).
Proof.
  intros [HC1 HC4097] [Hu _] Hlab.
  destruct (Nat.eq_dec C 1) as [->|HC].
  - assert (Hne : data label <> []).
    { destruct Hlab as [[x [Hin _]]|[_ [_ H]]]; [|exact H].
      intros E. rewrite E in Hin. destruct Hin. }
    rewrite calculate_weights_one_class by exact Hne.
    eexists. split; [reflexivity|]. split; [reflexivity|].
    intros k Hk. replace k with 0 by lia. cbn [nth].
    set (n := length (data label)).
    assert (Hn : 0 < n).
    { unfold n. destruct (data label); [congruence|cbn; lia]. }
    destruct (fsum_of_nat [n]) as [q [Eq Hq]].
    cbn [map] in Eq. rewrite Eq.
    unfold list_sum in Hq. cbn [fold_right] in Hq. rewrite Nat.add_0_r in Hq.
    destruct (weight_entry_value norm u n n q Hu (le_n n) Hn Hq)
      as [v [Ev [Hv Hv1]]].
    rewrite Ev. cbn [feq fle f1]. rewrite count_valid_one_class.
    set (m := count_class 0 (data label)).
    assert (Hf : (v == class_weight_formula norm u m m)%Q).
    { rewrite Hv. destruct (Nat.eq_dec m 0) as [E0|N0].
      - destruct Hlab as [Hex|[_ [-> _]]].
        + apply count_valid_pos in Hex.
          rewrite count_valid_one_class in Hex. fold m in Hex. lia.
        + rewrite E0. unfold class_weight_formula.
          replace (n =? 0) with false by (symmetry; apply Nat.eqb_neq; lia).
          cbn [Nat.eqb].
          pose proof (Qnat_pos n Hn) as Pn.
          assert (En : (Qnat n / Qnat n == 1)%Q) by (field; lra).
          rewrite En. ring.
      - apply class_weight_formula_whole; lia. }
    split; [exact Hf|]. split; [|exact Hv1].
    intros H0. rewrite Hf. unfold class_weight_formula. rewrite H0. reflexivity.
  - assert (HC2 : 2 <= C) by lia.
    assert (Hex : exists x, In x (data label) /\ (0 <= x <= Z.of_nat C - 1)%Z).
    { destruct Hlab as [Hex|[H1 _]]; [exact Hex|lia]. }
    rewrite calculate_weights_counts by exact HC2.
    eexists. split; [reflexivity|]. split.
    + now rewrite length_map, length_seq.
    + intros k Hk. rewrite nth_map_seq by exact Hk.
      destruct (fsum_of_nat (map (fun k => count_class k (data label)) (seq 0 C)))
        as [q [Eq Hq]].
      rewrite map_map in Eq. rewrite Eq.
      rewrite sum_count_class in Hq.
      destruct (weight_entry_value norm u (count_class k (data label))
                  (count_valid C (data label)) q Hu
                  (count_class_le_valid C k (data label) Hk)
                  (count_valid_pos C (data label) Hex) Hq)
        as [v [Ev [Hv Hv1]]].
      rewrite Ev. cbn [feq fle f1]. split; [exact Hv|]. split; [|exact Hv1].
      intros H0. rewrite Hv. unfold class_weight_formula. rewrite H0. reflexivity.
Qed.

(** C5, witness: three classes, labels 0, 0 and 1, normalised weights. *)
Lemma calculate_weights_entries_witness :
  1 <= 3 <= 4097 /\ (0 <= 1 <= upper_bound_limit true)%Q
  /\ ((exists x, In x [0; 0; 1]%Z /\ (0 <= x <= Z.of_nat 3 - 1)%Z)
      \/ (3 = 1 /\ true = false /\ [0; 0; 1]%Z <> []))
  /\ exists w,
       calculate_weights (mkTensor [3] [0; 0; 1]%Z) 3 true (Fin 1)
       = Ok (mkTensor [3] w)
       /\ length w = 3
       /\ forall k, k < 3 ->
            feq (nth k w NaN)
                (Fin (class_weight_formula true 1 (count_class k [0; 0; 1]%Z)
                        (count_valid 3 [0; 0; 1]%Z)))
            /\ (count_class k [0; 0; 1]%Z = 0 -> feq (nth k w NaN) f1)
            /\ fle f1 (nth k w NaN).
Proof.
  assert (H1 : 1 <= 3 <= 4097) by lia.
  assert (H2 : (0 <= 1 <= upper_bound_limit true)%Q)
    by (split; apply Qle_bool_iff; vm_compute; reflexivity).
  assert (H3 : (exists x, In x [0; 0; 1]%Z /\ (0 <= x <= Z.of_nat 3 - 1)%Z)
               \/ (3 = 1 /\ true = false /\ [0; 0; 1]%Z <> []))
    by (left; exists 0%Z; simpl; split; [now left|lia]).
  split; [exact H1|]. split; [exact H2|]. split; [exact H3|].
  exact (calculate_weights_entries (mkTensor [3] [0; 0; 1]%Z) 3 true 1 H1 H2 H3).
Defined.

(** One class, for which the range of the histogram comes from the data:
    the label 5 is counted in the bin of class 0, and without
    normalisation the weight is 1 all the same; a label 0 next to it
    changes nothing, class 0 being all that is counted. *)
Example calculate_weights_one_class_examples :
  (exists v, calculate_weights (mkTensor [1] [5%Z]) 1 false (Fin 3)
             = Ok (mkTensor [1] [Fin v]) /\ (v == 1)%Q)
  /\ (exists v, calculate_weights (mkTensor [2] [0; 5]%Z) 1 true (Fin 3)
                = Ok (mkTensor [1] [Fin v])
                /\ (v == class_weight_formula true 3 1 1)%Q).
Proof.
  split; eexists; (split; [vm_compute; reflexivity|reflexivity]).
Qed.

(** C5, counterexample: the claim does not hold for every class count and
    upper bound.  With no class the histogram is refused; with one class
    the histogram takes its range from the data, so the label 5 is counted
    in the bin of class 0, which is absent, and its normalised weight is
    not 1; with a negative upper bound the entries are below 1.  With 4098
    classes single precision counts the label 4096 in the bin of class
    4097, in either order of the operations, so that class 4096 is taken
    for absent and the absent class 4097 for present.  With the upper
    bound [3 * 10 ^ 38], a single-precision number, the normalised weight
    of a class that makes up half of the labels is beyond the largest
    single-precision number by more than half a unit of its last place,
    and is rounded to an infinity. *)
Lemma calculate_weights_entries_counterexample :
  calculate_weights (mkTensor [2] [0; 1]%Z) 0 false f1 = Err RuntimeError
  /\ (count_class 0 [5%Z] = 0
      /\ calculate_weights (mkTensor [1] [5%Z]) 1 true f1
         = Ok (mkTensor [1] [Fin (2000001 # 1000001)]))
  /\ calculate_weights (mkTensor [2] [0; 1]%Z) 2 false (Fin (-1))
     = Ok (mkTensor [2] [Fin (1 # 2); Fin (1 # 2)])
  /\ (bin_of_single true 4098 0 (inject_Z (Z.of_nat 4098 - 1)) (inject_Z 4096)
      = 4097
      /\ bin_of_single false 4098 0 (inject_Z (Z.of_nat 4098 - 1))
           (inject_Z 4096)
         = 4097)
  /\ ((inject_Z (3 * 10 ^ 38) <= single_max)%Q
      /\ exists v,
           calculate_weights (mkTensor [2] [0; 1]%Z) 2 true
             (Fin (inject_Z (3 * 10 ^ 38)))
           = Ok (mkTensor [2] [Fin v; Fin v])
           /\ (single_max + inject_Z (2 ^ 103) <= v)%Q).
Proof.
  split; [vm_compute; reflexivity|].
  split; [split; vm_compute; reflexivity|].
  split; [vm_compute; reflexivity|].
  split; [split; vm_compute; reflexivity|].
  split; [apply Qle_bool_iff; vm_compute; reflexivity|].
  eexists. split; [vm_compute; reflexivity|].
  apply Qle_bool_iff. vm_compute. reflexivity.
Qed.

(** C8 (what the code does): when no label lies in the range of the
    histogram, the total of the histogram is 0, the normalised histogram
    is 0/0, and every weight is NaN rather than 1, for both formulas. *)
Theorem calculate_weights_without_class_index (label : tensor Z) (C : nat)
    (norm : bool) (ub : fval) :
  2 <= C ->
  (forall x, In x (data label) -> ~ (0 <= x <= Z.of_nat C - 1)%Z) ->
  calculate_weights label C norm ub = Ok (mkTensor [C] (repeat NaN C)).
Proof.
  intros HC Hnone.
  rewrite calculate_weights_counts by exact HC.
  pose proof (count_valid_none C (data label) Hnone) as Hv.
  assert (Hk : forall k, k < C -> count_class k (data label) = 0).
  { intros k Hk. pose proof (count_class_le_valid C k (data label) Hk). lia. }
  destruct (fsum_of_nat (map (fun k => count_class k (data label)) (seq 0 C)))
    as [q [Eq Hq]].
  rewrite map_map in Eq. rewrite Eq.
  rewrite sum_count_class, Hv in Hq.
  f_equal. f_equal. rewrite <- map_const_seq.
  apply map_ext_in. intros k Hin. apply in_seq in Hin.
  rewrite Hk by lia. now apply weight_entry_empty.
Qed.

(** C8, witness: every label is the ignore index 255, three classes. *)
Lemma calculate_weights_without_class_index_witness :
  2 <= 3
  /\ (forall x, In x [255; 255; 255; 255]%Z -> ~ (0 <= x <= Z.of_nat 3 - 1)%Z)
  /\ calculate_weights (mkTensor [2; 2] [255; 255; 255; 255]%Z) 3 false f1
     = Ok (mkTensor [3] [NaN; NaN; NaN]).
Proof.
  assert (H1 : 2 <= 3) by lia.
  assert (H2 : forall x, In x [255; 255; 255; 255]%Z
                         -> ~ (0 <= x <= Z.of_nat 3 - 1)%Z).
  { intros x Hin. simpl in Hin. lia. }
  split; [exact H1|]. split; [exact H2|].
  exact (calculate_weights_without_class_index
           (mkTensor [2; 2] [255; 255; 255; 255]%Z) 3 false f1 H1 H2).
Defined.

(* ------------------------------------------------------------------ *)
(** ** Facts about [_expand_onehot_labels] *)

(** The expansion leaves the caller's labels alone when the zero class is
    included and has decremented every label but the ignored ones when it
    is not, whether it returns or raises. *)
Lemma expand_onehot_labels_label_store (ts : list nat) (ign : Z) (iz : bool)
    (st : store) :
  caller_label (snd (_expand_onehot_labels ts ign iz st))
  = if iz then caller_label st
    else tmap (shift_label ign) (caller_label st).
Proof.
  unfold _expand_onehot_labels, bind, get, put, ret, lift, raise.
  destruct iz; cbn [fst snd caller_label caller_weight];
    repeat match goal with
    | |- context [match ?x with _ => _ end] =>
        lazymatch x with
        | context [match _ with _ => _ end] => fail
        | _ => destruct x eqn:?; cbn [fst snd caller_label caller_weight]
        end
    end; try reflexivity; try congruence.
Qed.

Lemma in_index_tuples (labels : tensor Z) (ign : Z) (t : list Z) :
  In t (index_tuples labels ign) ->
  exists p x, p < length (data labels) /\ In x (data labels)
              /\ valid ign x = true /\ t = index_tuple labels p x.
Proof.
  unfold index_tuples. intros Hin.
  apply in_flat_map in Hin as [[p x] [Hpx Ht]].
  destruct (valid ign x) eqn:V; [|destruct Ht].
  destruct Ht as [<-|[]].
  exists p, x. repeat split; auto.
  - apply in_combine_l in Hpx. apply in_seq in Hpx. lia.
  - now apply in_combine_r in Hpx.
Qed.

Lemma Zlt_of_nat_bound (a d : nat) :
  a < d -> ((0 <=? Z.of_nat a)%Z && (Z.of_nat a <? Z.of_nat d)%Z) = true.
Proof.
  intros H. apply andb_true_iff. split; [apply Z.leb_le|apply Z.ltb_lt]; lia.
Qed.

(** Labels of size (N, H, W) index a tensor of size (N, C, H, W) within
    its bounds when every valid label is below C. *)
Lemma index_tuples_in_bounds_4d (n c h w : nat) (labels : tensor Z) (ign : Z) :
  shape labels = [n; h; w] -> wf labels ->
  (forall x, In x (data labels) -> valid ign x = true -> (x < Z.of_nat c)%Z) ->
  forallb (tuple_in_bounds [n; c; h; w]) (index_tuples labels ign) = true.
Proof.
  intros Hs Hwf Hc. apply forallb_forall. intros t Hin.
  apply in_index_tuples in Hin as [p [x [Hp [Hx [Hv ->]]]]].
  unfold wf in Hwf. rewrite Hs in Hwf. rewrite Hwf in Hp. cbn [numel fold_right] in Hp.
  assert (Hn : n <> 0) by (intros ->; simpl in Hp; lia).
  assert (Hh : h <> 0) by (intros ->; rewrite Nat.mul_0_l, Nat.mul_0_r in Hp; lia).
  assert (Hw : w <> 0) by (intros ->; rewrite !Nat.mul_0_l, !Nat.mul_0_r in Hp; lia).
  unfold index_tuple, dim. rewrite Hs. cbn [length Nat.eqb unravel map nth numel fold_right].
  unfold tuple_in_bounds. cbn [length Nat.leb combine forallb].
  specialize (Hc x Hx Hv). unfold valid in Hv. apply andb_true_iff in Hv as [Hv _].
  rewrite !Zlt_of_nat_bound by (apply Nat.mod_upper_bound; assumption).
  rewrite Hv. replace (x <? Z.of_nat c)%Z with true by (symmetry; apply Z.ltb_lt; lia).
  reflexivity.
Qed.

(** Labels of size (N) index a tensor of size (N, C) within its bounds when
    every valid label is below C. *)
Lemma index_tuples_in_bounds_2d (n c : nat) (labels : tensor Z) (ign : Z) :
  shape labels = [n] -> wf labels ->
  (forall x, In x (data labels) -> valid ign x = true -> (x < Z.of_nat c)%Z) ->
  forallb (tuple_in_bounds [n; c]) (index_tuples labels ign) = true.
Proof.
  intros Hs Hwf Hc. apply forallb_forall. intros t Hin.
  apply in_index_tuples in Hin as [p [x [Hp [Hx [Hv ->]]]]].
  unfold wf in Hwf. rewrite Hs in Hwf. rewrite Hwf in Hp. cbn [numel fold_right] in Hp.
  assert (Hn : n <> 0) by (intros ->; simpl in Hp; lia).
  unfold index_tuple, dim. rewrite Hs. cbn [length Nat.eqb unravel map nth numel fold_right].
  unfold tuple_in_bounds. cbn [length Nat.leb combine forallb].
  specialize (Hc x Hx Hv). unfold valid in Hv. apply andb_true_iff in Hv as [Hv _].
  rewrite !Zlt_of_nat_bound by (apply Nat.mod_upper_bound; assumption).
  rewrite Hv. replace (x <? Z.of_nat c)%Z with true by (symmetry; apply Z.ltb_lt; lia).
  reflexivity.
Qed.

(** Without sample weights and with the zero class included, the expansion
    returns, and leaves the store as it is, as soon as the index tuples are
    within the bounds of the target and the mask expands to it. *)
Lemma expand_onehot_labels_returns (ts : list nat) (ign : Z) (st : store) :
  caller_weight st = None ->
  forallb (tuple_in_bounds ts) (index_tuples (caller_label st) ign) = true ->
  1 <= dim (caller_label st) ->
  expandable (firstn 1 (shape (caller_label st)) ++ 1
                :: skipn 1 (shape (caller_label st))) ts = true ->
  exists bin vm,
    _expand_onehot_labels ts ign true st = (Ok (bin, vm), st)
    /\ shape bin = ts /\ shape vm = ts.
Proof.
  intros Hw Hb Hd He.
  unfold _expand_onehot_labels, bind, get, put, ret, lift, raise.
  cbn [fst snd]. rewrite Hw.
  assert (Hput : exists bin,
             match index_tuples (caller_label st) ign with
             | [] => Ok (full ts 0%Z)
             | _ :: _ => index_put_ones ts (index_tuples (caller_label st) ign)
             end = Ok bin /\ shape bin = ts).
  { unfold index_put_ones. rewrite Hb.
    destruct (index_tuples (caller_label st) ign); eexists; split; reflexivity. }
  destruct Hput as [bin [Ebin Hsb]]. rewrite Ebin.
  unfold unsqueeze. unfold dim at 1. cbn [tmap shape].
  replace (1 <=? length (shape (caller_label st))) with true
    by (symmetry; apply Nat.leb_le; exact Hd).
  unfold expand. cbn [shape data]. rewrite He.
  unfold expandable in He.
  destruct (pad_shape _ ts) as [ps|]; [|discriminate].
  eexists. eexists. split; [reflexivity|]. split; [exact Hsb|reflexivity].
Qed.

(* ------------------------------------------------------------------ *)
(** ** The one-hot property of the expansion *)

Lemma ravel_lt (s idx : list nat) (p : nat) :
  ravel s idx = Some p -> p < numel s.
Proof.
  revert idx p. induction s as [|d s IH]; intros [|i idx] p; cbn [ravel numel fold_right];
    try discriminate.
  - intros E. injection E as <-. lia.
  - destruct (Nat.ltb_spec i d) as [Hi|Hi]; [|discriminate].
    destruct (ravel s idx) as [r|] eqn:Er; [|discriminate].
    intros E. injection E as <-. specialize (IH idx r Er).
    fold (numel s) in *. nia.
Qed.

Lemma unravel_ravel (s idx : list nat) (p : nat) :
  ravel s idx = Some p -> unravel s p = idx.
Proof.
  revert idx p. induction s as [|d s IH]; intros [|i idx] p; cbn [ravel unravel];
    try discriminate; [reflexivity|].
  destruct (Nat.ltb_spec i d) as [Hi|Hi]; [|discriminate].
  destruct (ravel s idx) as [r|] eqn:Er; [|discriminate].
  intros E. injection E as <-.
  pose proof (ravel_lt s idx r Er) as Hr.
  assert (Hq : (i * numel s + r) / numel s = i)
    by (symmetry; apply (Nat.div_unique _ _ i r); lia).
  assert (Hm : (i * numel s + r) mod numel s = r)
    by (symmetry; apply (Nat.mod_unique _ _ i r); lia).
  rewrite Hq, Hm, (IH idx r Er), Nat.mod_small by exact Hi. reflexivity.
Qed.

Lemma ravel_unravel (s : list nat) (p : nat) :
  p < numel s -> ravel s (unravel s p) = Some p.
Proof.
  revert p. induction s as [|d s IH]; intros p Hp; cbn [ravel unravel numel fold_right] in *.
  - f_equal. lia.
  - fold (numel s) in *.
    assert (Hn : numel s <> 0) by (intros E; rewrite E in Hp; lia).
    assert (Hq : p / numel s < d)
      by (apply Nat.Div0.div_lt_upper_bound; lia).
    rewrite (Nat.mod_small _ _ Hq).
    replace (p / numel s <? d) with true by (symmetry; now apply Nat.ltb_lt).
    rewrite IH by (apply Nat.mod_upper_bound; exact Hn).
    cbn [option_map]. f_equal.
    pose proof (Nat.div_mod_eq p (numel s)). lia.
Qed.

Lemma unravel_length (s : list nat) (p : nat) : length (unravel s p) = length s.
Proof.
  revert p. induction s as [|d s IH]; intros p; cbn [unravel length]; [reflexivity|].
  now rewrite IH.
Qed.

Lemma unravel_inj (s : list nat) (p q : nat) :
  p < numel s -> q < numel s -> unravel s p = unravel s q -> p = q.
Proof.
  intros Hp Hq E.
  pose proof (ravel_unravel s p Hp) as E1.
  pose proof (ravel_unravel s q Hq) as E2.
  rewrite E in E1. congruence.
Qed.

Lemma in_combine_seq {A} (l : list A) (p : nat) (x : A) (s : nat) :
  In (p, x) (combine (seq s (length l)) l) <-> s <= p /\ nth_error l (p - s) = Some x.
Proof.
  revert s. induction l as [|a l IH]; intros s; cbn [length seq combine In].
  - split; [tauto|]. intros [_ H]. destruct (p - s); discriminate.
  - rewrite IH. split.
    + intros [E|[Hs Hn]].
      * injection E as <- <-. rewrite Nat.sub_diag. split; [lia|reflexivity].
      * split; [lia|]. replace (p - s) with (S (p - S s)) by lia. exact Hn.
    + intros [Hs Hn]. destruct (Nat.eq_dec p s) as [->|Hne].
      * left. rewrite Nat.sub_diag in Hn. cbn in Hn. congruence.
      * right. split; [lia|]. replace (p - s) with (S (p - S s)) in Hn by lia.
        exact Hn.
Qed.

Lemma is_prefix_same_length (t m : list Z) :
  length t = length m -> is_prefix t m = true -> t = m.
Proof.
  revert m. induction t as [|i t IH]; intros [|j m] Hl; cbn [is_prefix length] in *;
    try discriminate; [reflexivity|].
  intros H. apply andb_true_iff in H as [Hij Ht].
  apply Z.eqb_eq in Hij. subst j. f_equal. apply IH; [lia|exact Ht].
Qed.

Lemma is_prefix_refl (t : list Z) : is_prefix t t = true.
Proof.
  induction t as [|i t IH]; cbn [is_prefix]; [reflexivity|].
  now rewrite Z.eqb_refl, IH.
Qed.

Lemma map_of_nat_inj (l1 l2 : list nat) :
  map Z.of_nat l1 = map Z.of_nat l2 -> l1 = l2.
Proof.
  revert l2. induction l1 as [|a l1 IH]; intros [|b l2]; cbn [map]; try discriminate;
    [reflexivity|].
  intros E. injection E as Hab E. apply Nat2Z.inj in Hab. subst b.
  f_equal. now apply IH.
Qed.

(** The index tuple of a position of labels of size (N) or (N, H, W). *)
Lemma index_tuple_supported (labels : tensor Z) (n : nat) (sp : list nat)
    (p : nat) (x : Z) :
  shape labels = n :: sp -> (sp = [] \/ exists h w, sp = [h; w]) ->
  index_tuple labels p x
  = Z.of_nat (hd 0 (unravel (n :: sp) p)) :: x
      :: map Z.of_nat (tl (unravel (n :: sp) p)).
Proof.
  intros Hs [->|[h [w ->]]]; unfold index_tuple, dim; rewrite Hs; reflexivity.
Qed.

(** The expanded labels that a returning expansion gives, in terms of the
    labels it reads after the shift. *)
Lemma expand_onehot_labels_bin (ts : list nat) (ign : Z) (iz : bool)
    (st : store) (bin : tensor Z) (vm : tensor fval) :
  fst (_expand_onehot_labels ts ign iz st) = Ok (bin, vm) ->
  bin = mkTensor ts
          (ones_at ts
             (index_tuples (if iz then caller_label st
                            else tmap (shift_label ign) (caller_label st)) ign))
  /\ forallb (tuple_in_bounds ts)
       (index_tuples (if iz then caller_label st
                      else tmap (shift_label ign) (caller_label st)) ign) = true.
Proof.
  unfold _expand_onehot_labels, bind, get, put, ret, lift, raise.
  set (labels := if iz then caller_label st
                 else tmap (shift_label ign) (caller_label st)).
  assert (Hput : forall r : result (tensor Z),
             r = match index_tuples labels ign with
                 | [] => Ok (full ts 0%Z)
                 | _ :: _ => index_put_ones ts (index_tuples labels ign)
                 end ->
             forall b, r = Ok b ->
             b = mkTensor ts (ones_at ts (index_tuples labels ign))
             /\ forallb (tuple_in_bounds ts) (index_tuples labels ign) = true).
  { intros r -> b. unfold index_put_ones.
    destruct (index_tuples labels ign) as [|t inds] eqn:Ei.
    - intros E. injection E as <-. split; [|reflexivity].
      unfold full, ones_at. cbn [existsb]. now rewrite map_const_seq.
    - destruct (forallb (tuple_in_bounds ts) (t :: inds)); [|discriminate].
      intros E. injection E as <-. split; reflexivity. }
  destruct iz; cbn [fst snd caller_label caller_weight]; subst labels;
    match goal with
    | |- context [match ?r with Ok a => _ | Err e => _ end] =>
        lazymatch r with
        | match index_tuples _ _ with _ => _ end =>
            specialize (Hput r eq_refl); destruct r as [b|e]; [|discriminate]
        end
    end;
    specialize (Hput b eq_refl);
    repeat match goal with
    | |- context [match ?x with _ => _ end] =>
        lazymatch x with
        | context [match _ with _ => _ end] => fail
        | _ => destruct x eqn:?; cbn [fst snd caller_label caller_weight]
        end
    end; try discriminate;
    intros E; injection E as <- <-; exact Hput.
Qed.

Lemma nth_error_map_seq {A} (f : nat -> A) (n k : nat) :
  k < n -> nth_error (map f (seq 0 n)) k = Some (f k).
Proof.
  intros Hk. rewrite nth_error_map, nth_error_seq.
  replace (k <? n) with true by (symmetry; now apply Nat.ltb_lt). reflexivity.
Qed.

(** Whether some index tuple of the labels addresses the element
    (i, cc, r) of the target, where (i, r) is the position [q] of the
    labels: exactly when the label at [q] is valid and is [cc]. *)
Lemma index_tuples_hit (labels : tensor Z) (ign : Z) (n : nat) (sp : list nat)
    (q cc : nat) :
  shape labels = n :: sp -> (sp = [] \/ exists h w, sp = [h; w]) ->
  wf labels -> q < numel (n :: sp) ->
  existsb (fun t => is_prefix t
                      (map Z.of_nat (hd 0 (unravel (n :: sp) q) :: cc
                                       :: tl (unravel (n :: sp) q))))
          (index_tuples labels ign)
  = valid ign (nth q (data labels) 0%Z)
    && (nth q (data labels) 0%Z =? Z.of_nat cc)%Z.
Proof.
  intros Hs Hsp Hwf Hq. unfold wf in Hwf. rewrite Hs in Hwf.
  set (y := nth q (data labels) 0%Z).
  assert (Hy : nth_error (data labels) q = Some y)
    by (apply nth_error_nth'; lia).
  apply eq_true_iff_eq. rewrite existsb_exists, andb_true_iff, Z.eqb_eq. split.
  - intros [t [Hin Hpre]]. unfold index_tuples in Hin.
    apply in_flat_map in Hin as [[p x] [Hpx Ht]].
    destruct (valid ign x) eqn:V; [|destruct Ht]. destruct Ht as [<-|[]].
    apply in_combine_seq in Hpx as [_ Hpx]. rewrite Nat.sub_0_r in Hpx.
    assert (Hp : p < numel (n :: sp))
      by (rewrite <- Hwf; apply nth_error_Some; congruence).
    rewrite (index_tuple_supported labels n sp p x Hs Hsp) in Hpre.
    apply is_prefix_same_length in Hpre.
    + cbn [map] in Hpre. injection Hpre as H0 Hx Hr.
      apply Nat2Z.inj in H0. apply map_of_nat_inj in Hr.
      assert (Epq : unravel (n :: sp) p = unravel (n :: sp) q).
      { cbn [unravel hd tl] in *. congruence. }
      apply unravel_inj in Epq; [|exact Hp|exact Hq]. subst p.
      assert (Exy : x = y) by congruence.
      split; now rewrite <- Exy.
    + cbn [map length]. rewrite !length_map.
      pose proof (unravel_length (n :: sp) p) as Lp.
      pose proof (unravel_length (n :: sp) q) as Lq.
      destruct (unravel (n :: sp) p), (unravel (n :: sp) q);
        cbn [length tl] in *; try discriminate. lia.
  - intros [V Hcc].
    exists (index_tuple labels q y). split.
    + unfold index_tuples. apply in_flat_map. exists (q, y). split.
      * apply in_combine_seq. rewrite Nat.sub_0_r. split; [lia|exact Hy].
      * rewrite V. now left.
    + rewrite (index_tuple_supported labels n sp q y Hs Hsp), Hcc.
      apply is_prefix_refl.
Qed.

Lemma sum_indicator_Z (c : nat) (y : Z) :
  fold_right Z.add 0%Z
    (map (fun cc => if (y =? Z.of_nat cc)%Z then 1%Z else 0%Z) (seq 0 c))
  = if ((0 <=? y)%Z && (y <=? Z.of_nat c - 1)%Z) then 1%Z else 0%Z.
Proof.
  induction c as [|c IH].
  - cbn [seq map fold_right].
    destruct (Z.leb_spec 0 y), (Z.leb_spec y (Z.of_nat 0 - 1)); cbn [andb];
      try reflexivity; lia.
  - rewrite seq_S, map_app, fold_right_app. cbn [map fold_right Nat.add].
    assert (Hacc : forall (l : list Z) (a : Z),
               fold_right Z.add a l = (fold_right Z.add 0 l + a)%Z).
    { induction l as [|b l IHl]; intros a; cbn [fold_right]; [lia|].
      rewrite IHl. lia. }
    rewrite Hacc, IH.
    destruct (Z.eqb_spec y (Z.of_nat c)) as [Heq|Hne];
      destruct (Z.leb_spec 0 y), (Z.leb_spec y (Z.of_nat c - 1)),
               (Z.leb_spec y (Z.of_nat (S c) - 1)); cbn [andb]; try reflexivity; lia.
Qed.

(** The sum over the class axis of the expanded labels at the position [q]
    of the labels is 1 when the label read there, after the shift, is
    valid, and 0 when it is not. *)
Theorem expanded_labels_class_sum (n c : nat) (sp : list nat) (ign : Z)
    (iz : bool) (st : store) (bin : tensor Z) (vm : tensor fval) (q : nat) :
  shape (caller_label st) = n :: sp -> (sp = [] \/ exists h w, sp = [h; w]) ->
  wf (caller_label st) ->
  fst (_expand_onehot_labels (n :: c :: sp) ign iz st) = Ok (bin, vm) ->
  q < numel (n :: sp) ->
  class_sum bin (hd 0 (unravel (n :: sp) q)) (tl (unravel (n :: sp) q))
  = if valid ign (if iz then nth q (data (caller_label st)) 0%Z
                  else shift_label ign (nth q (data (caller_label st)) 0%Z))
    then 1%Z else 0%Z.
Proof.
  intros Hs Hsp Hwf E Hq.
  apply expand_onehot_labels_bin in E as [-> Hb].
  set (labels := if iz then caller_label st
                 else tmap (shift_label ign) (caller_label st)) in *.
  assert (Hs' : shape labels = n :: sp) by (subst labels; destruct iz; exact Hs).
  assert (Hwf' : wf labels).
  { subst labels. destruct iz; [exact Hwf|]. unfold wf, tmap in *. cbn [data shape].
    now rewrite length_map. }
  assert (Hy : nth q (data labels) 0%Z
               = if iz then nth q (data (caller_label st)) 0%Z
                 else shift_label ign (nth q (data (caller_label st)) 0%Z)).
  { subst labels. destruct iz; [reflexivity|]. unfold tmap. cbn [data].
    unfold wf in Hwf. rewrite Hs in Hwf.
    rewrite (nth_indep _ 0%Z (shift_label ign 0%Z)) by (rewrite length_map; lia).
    apply map_nth. }
  rewrite <- Hy. set (y := nth q (data labels) 0%Z).
  pose proof (ravel_unravel (n :: sp) q Hq) as Hrq.
  pose proof (unravel_length (n :: sp) q) as Lq.
  destruct (unravel (n :: sp) q) as [|i r] eqn:Eu; [discriminate|].
  cbn [hd tl]. cbn [ravel] in Hrq.
  destruct (Nat.ltb_spec i n) as [Hi|Hi]; [|discriminate].
  destruct (ravel sp r) as [r0|] eqn:Er; [|discriminate].
  unfold class_sum. cbn [shape nth].
  transitivity (fold_right Z.add 0%Z
                  (map (fun cc => if valid ign y && (y =? Z.of_nat cc)%Z
                                  then 1%Z else 0%Z) (seq 0 c))).
  - f_equal. apply map_ext_in. intros cc Hcc. apply in_seq in Hcc.
    unfold item. cbn [shape data ravel].
    replace (i <? n) with true by (symmetry; now apply Nat.ltb_lt).
    replace (cc <? c) with true by (symmetry; apply Nat.ltb_lt; lia).
    rewrite Er. cbn [option_map].
    set (p := i * numel (c :: sp) + (cc * numel sp + r0)).
    assert (Hrp : ravel (n :: c :: sp) (i :: cc :: r) = Some p).
    { cbn [ravel].
      replace (i <? n) with true by (symmetry; now apply Nat.ltb_lt).
      replace (cc <? c) with true by (symmetry; apply Nat.ltb_lt; lia).
      rewrite Er. reflexivity. }
    unfold ones_at. rewrite nth_error_map_seq by (apply (ravel_lt _ _ _ Hrp)).
    rewrite (unravel_ravel _ _ _ Hrp).
    pose proof (index_tuples_hit labels ign n sp q cc Hs' Hsp Hwf' Hq) as Hhit.
    rewrite Eu in Hhit. cbn [hd tl] in Hhit. rewrite Hhit. reflexivity.
  - destruct (valid ign y) eqn:V; cbn [andb].
    + rewrite sum_indicator_Z.
      assert (Hin : In (index_tuple labels q y) (index_tuples labels ign)).
      { unfold index_tuples. apply in_flat_map. exists (q, y). split.
        - apply in_combine_seq. rewrite Nat.sub_0_r. split; [lia|].
          apply nth_error_nth'. unfold wf in Hwf'. rewrite Hwf', Hs'. exact Hq.
        - rewrite V. now left. }
      rewrite forallb_forall in Hb. specialize (Hb _ Hin).
      rewrite (index_tuple_supported labels n sp q y Hs' Hsp), Eu in Hb.
      unfold tuple_in_bounds in Hb. cbn [hd tl map combine forallb length] in Hb.
      rewrite !andb_true_iff in Hb. destruct Hb as [_ [_ [[H0 Hc] _]]].
      apply Z.leb_le in H0. apply Z.ltb_lt in Hc.
      replace (0 <=? y)%Z with true by (symmetry; apply Z.leb_le; lia).
      replace (y <=? Z.of_nat c - 1)%Z with true by (symmetry; apply Z.leb_le; lia).
      reflexivity.
    + clear. induction (seq 0 c); cbn [map fold_right]; [reflexivity|].
      now rewrite IHl.
Qed.

Lemma wrap64_small (z : Z) :
  (- 2 ^ 63 <= z < 2 ^ 63)%Z -> wrap64 z = z.
Proof.
  intros H. unfold wrap64. rewrite Z.mod_small; lia.
Qed.

(** X2: the one-hot property in terms of the caller's labels: at a position
    whose label [x] is a 64-bit class index and is not the ignore index,
    the row of the expanded labels sums to 1 when the zero class is
    included; when it is excluded the row sums to 0 for the label 0 and to
    1 for the other labels, but for the label next to the ignore index,
    which the shift turns into the ignore index. *)
Corollary expanded_labels_one_hot (n c : nat) (sp : list nat) (ign : Z)
    (iz : bool) (st : store) (bin : tensor Z) (vm : tensor fval) (q : nat) :
  shape (caller_label st) = n :: sp -> (sp = [] \/ exists h w, sp = [h; w]) ->
  wf (caller_label st) ->
  fst (_expand_onehot_labels (n :: c :: sp) ign iz st) = Ok (bin, vm) ->
  q < numel (n :: sp) ->
  (0 <= nth q (data (caller_label st)) 0 < 2 ^ 63)%Z ->
  nth q (data (caller_label st)) 0%Z <> ign ->
  class_sum bin (hd 0 (unravel (n :: sp) q)) (tl (unravel (n :: sp) q))
  = if iz then 1%Z
    else if (nth q (data (caller_label st)) 0 =? 0)%Z then 0%Z
    else if (nth q (data (caller_label st)) 0 - 1 =? ign)%Z then 0%Z
    else 1%Z.
Proof.
  intros Hs Hsp Hwf E Hq Hx Hign.
  rewrite (expanded_labels_class_sum n c sp ign iz st bin vm q Hs Hsp Hwf E Hq).
  set (x := nth q (data (caller_label st)) 0%Z) in *.
  unfold valid, shift_label.
  destruct iz.
  - replace (0 <=? x)%Z with true by (symmetry; apply Z.leb_le; lia).
    replace (x =? ign)%Z with false by (symmetry; now apply Z.eqb_neq).
    reflexivity.
  - replace (x =? ign)%Z with false by (symmetry; now apply Z.eqb_neq).
    rewrite wrap64_small by lia.
    destruct (Z.eqb_spec x 0) as [H0|H0].
    + replace (0 <=? x - 1)%Z with false by (symmetry; apply Z.leb_gt; lia).
      reflexivity.
    + replace (0 <=? x - 1)%Z with true by (symmetry; apply Z.leb_le; lia).
      destruct (x - 1 =? ign)%Z; reflexivity.
Qed.

(* ------------------------------------------------------------------ *)
(** ** Facts about [binary_cross_entropy] and [forward] *)

Lemma unsqueeze_dim {A} (d : nat) (t t' : tensor A) :
  unsqueeze d t = Ok t' -> dim t' = S (dim t).
Proof.
  unfold unsqueeze. destruct (Nat.leb_spec d (dim t)) as [Hd|Hd]; [|discriminate].
  intros E. injection E as <-. unfold dim in *. cbn [shape].
  rewrite length_app. cbn [length]. rewrite length_firstn, length_skipn. lia.
Qed.

Lemma pos_weight_of_dim (w pw : tensor fval) :
  pos_weight_of w = Ok pw -> dim pw = dim w + 3.
Proof.
  unfold pos_weight_of, rbind.
  destruct (unsqueeze 0 w) as [t1|] eqn:E1; [|discriminate].
  destruct (unsqueeze 2 t1) as [t2|] eqn:E2; [|discriminate].
  intros E3.
  apply unsqueeze_dim in E1. apply unsqueeze_dim in E2. apply unsqueeze_dim in E3.
  lia.
Qed.

Lemma broadcast_shapes_length (s1 s2 bs : list nat) :
  broadcast_shapes s1 s2 = Some bs ->
  length bs = Nat.max (length s1) (length s2).
Proof.
  unfold broadcast_shapes.
  destruct (forallb _ _); [|discriminate].
  intros E. injection E as <-.
  rewrite length_map, length_combine, !length_app, !repeat_length. lia.
Qed.

Lemma shape_eqb_length (s1 s2 : list nat) :
  length s1 <> length s2 -> shape_eqb s1 s2 = false.
Proof.
  intros H. unfold shape_eqb. destruct (list_eq_dec Nat.eq_dec s1 s2); congruence.
Qed.

Section LossFacts.

Variable bce_logit : fval -> fval -> fval -> fval.
Variable weight_reduce_loss :
  tensor fval -> option (tensor fval) -> string -> option fval ->
  result (tensor fval).

(** With a positive-class weight the logits loss needs an input of at
    least three dimensions more than the weight vector. *)
Lemma logits_loss_low_rank (input target : tensor fval) (w pw : tensor fval) :
  pos_weight_of w = Ok pw -> dim input < 3 ->
  exists e, binary_cross_entropy_with_logits bce_logit input target pw = Err e.
Proof.
  intros Hpw Hd. unfold binary_cross_entropy_with_logits.
  destruct (negb (shape_eqb (shape target) (shape input))); [eauto|].
  destruct (broadcast_shapes (shape pw) (shape target)) as [bs|] eqn:E; [|eauto].
  apply broadcast_shapes_length in E. apply pos_weight_of_dim in Hpw.
  unfold dim in *. rewrite shape_eqb_length by lia. eauto.
Qed.

(** The element-wise loss of a prediction of two dimensions is never
    computed. *)
Lemma elementwise_loss_rank2 (pred : tensor fval) (label : tensor Z)
    (img : option string) (bw : bool) (cw : option (tensor fval)) (iz : bool) :
  dim pred = 2 ->
  exists e, elementwise_loss bce_logit pred label img bw cw iz = Err e.
Proof.
  intros Hd. unfold elementwise_loss.
  destruct (is_none cw && negb (is_none img) && negb bw).
  - rewrite Hd. cbn. eauto.
  - unfold rbind.
    destruct (if is_none cw && negb (is_none img) && bw then _ else _)
      as [cw1|e1]; [|eauto].
    destruct (if iz then _ else _) as [cw2|e2]; [|eauto].
    destruct cw2 as [w|]; [|eauto].
    destruct (pos_weight_of w) as [pw|e3] eqn:Epw; [|eauto].
    apply (logits_loss_low_rank pred (float label) w pw Epw). lia.
Qed.

(** C7: when the ranks of the prediction and of the label differ and are
    neither 2 and 1 nor 4 and 3, the call fails with the assertion error
    at once: no loss is produced and no tensor of the caller is written. *)
Theorem unsupported_rank_pair_asserts (pred : tensor fval)
    (img : option string) (bw : bool) (cw : option (tensor fval))
    (red : string) (af : option fval) (ign : Z) (iz : bool) (st : store) :
  dim pred <> dim (caller_label st) ->
  ~ (dim pred = 2 /\ dim (caller_label st) = 1) ->
  ~ (dim pred = 4 /\ dim (caller_label st) = 3) ->
  binary_cross_entropy bce_logit weight_reduce_loss pred img bw cw red af
    ign iz st
  = (Err AssertionError, st).
Proof.
  intros Hne H21 H43.
  unfold binary_cross_entropy, bind, get. cbn [fst snd].
  replace (dim pred =? dim (caller_label st)) with false
    by (symmetry; now apply Nat.eqb_neq).
  cbn [negb].
  destruct (Nat.eqb_spec (dim pred) 2), (Nat.eqb_spec (dim (caller_label st)) 1),
           (Nat.eqb_spec (dim pred) 4), (Nat.eqb_spec (dim (caller_label st)) 3);
    cbn [andb orb assert_ raise]; try reflexivity; exfalso; auto.
Qed.

(** C1 (what the code does): for a prediction of size (N, C, H, W), labels
    of size (N, H, W) whose valid values are below C, no sample weights,
    no histogram mode, no class weights and the zero class included, the
    labels are expanded and the call then raises AttributeError, the
    absent class weights being used as a tensor; no loss is returned. *)
Theorem no_class_weight_raises (n c h w : nat) (pred : tensor fval)
    (bw : bool) (red : string) (af : option fval) (ign : Z) (st : store) :
  shape pred = [n; c; h; w] ->
  shape (caller_label st) = [n; h; w] ->
  wf (caller_label st) ->
  caller_weight st = None ->
  (forall x, In x (data (caller_label st)) -> valid ign x = true ->
             (x < Z.of_nat c)%Z) ->
  binary_cross_entropy bce_logit weight_reduce_loss pred None bw None red af
    ign true st
  = (Err AttributeError, st).
Proof.
  intros Hp Hl Hwf Hw Hx.
  destruct (expand_onehot_labels_returns [n; c; h; w] ign st Hw) as [bin [vm [E _]]].
  - now apply index_tuples_in_bounds_4d.
  - unfold dim. rewrite Hl. cbn. lia.
  - rewrite Hl. unfold expandable, pad_shape. cbn.
    rewrite !Nat.eqb_refl, ?orb_true_r. reflexivity.
  - unfold binary_cross_entropy, bind, get. cbn [fst snd].
    unfold dim. rewrite Hp, Hl. cbn [length Nat.eqb negb andb orb assert_ ret].
    rewrite E. reflexivity.
Qed.

(** C4 (what the code does): a prediction of two dimensions with a label
    of one dimension never gets a loss, whatever the weighting mode and
    the class weights. *)
Theorem rank2_prediction_never_returns (pred : tensor fval)
    (img : option string) (bw : bool) (cw : option (tensor fval))
    (red : string) (af : option fval) (ign : Z) (iz : bool) (st : store) :
  dim pred = 2 -> dim (caller_label st) = 1 ->
  is_ok (fst (binary_cross_entropy bce_logit weight_reduce_loss pred img bw
                cw red af ign iz st)) = false.
Proof.
  intros Hp Hl.
  unfold binary_cross_entropy, bind, get. cbn [fst snd].
  rewrite Hp, Hl. cbn [Nat.eqb negb andb orb assert_ ret].
  destruct (_expand_onehot_labels (shape pred) ign iz st) as [[[l wt]|e] st'];
    [|reflexivity].
  unfold lift, ret. cbv beta iota.
  destruct (elementwise_loss_rank2 pred l img bw cw iz Hp) as [e ->].
  reflexivity.
Qed.

(** C10 (as amended): in the per-image histogram mode a call with a
    prediction of two dimensions and a label of one dimension never
    returns a loss.  The labels are expanded first: when the expansion
    raises, its error is the error of the call; when it returns, the call
    fails with the assertion error of this mode. *)
Theorem per_image_mode_rank2_fails (pred : tensor fval) (mode : string)
    (red : string) (af : option fval) (ign : Z) (iz : bool) (st : store) :
  dim pred = 2 -> dim (caller_label st) = 1 ->
  binary_cross_entropy bce_logit weight_reduce_loss pred (Some mode) false
    None red af ign iz st
  = match _expand_onehot_labels (shape pred) ign iz st with
    | (Ok _, st') => (Err AssertionError, st')
    | (Err e, st') => (Err e, st')
    end.
Proof.
  intros Hp Hl.
  unfold binary_cross_entropy, bind, get. cbn [fst snd].
  rewrite Hp, Hl. cbn [Nat.eqb negb andb orb assert_ ret].
  destruct (_expand_onehot_labels (shape pred) ign iz st) as [[[l wt]|e] st'];
    [|reflexivity].
  unfold lift, ret. cbv beta iota.
  unfold elementwise_loss. rewrite Hp. reflexivity.
Qed.

(** C9: [forward] fails the assertion unless the reduction override is
    unset or one of "none", "mean" and "sum"; otherwise it is the loss of
    [binary_cross_entropy], scaled by the configured loss weight, where
    the reduction is the override when one is given and the configured
    one otherwise, and the configured class weights are passed as a
    tensor holding the list. *)
Theorem forward_scales_core (self : BinaryCrossEntropyLoss)
    (cls_score : tensor fval) (af : option fval) (ro : option string)
    (kw : option Z) (st : store) :
  (override_allowed ro = true
   <-> ro = None \/ ro = Some "none"%string \/ ro = Some "mean"%string
       \/ ro = Some "sum"%string)
  /\ forward bce_logit weight_reduce_loss self cls_score af ro kw st
     = if override_allowed ro then
         match binary_cross_entropy bce_logit weight_reduce_loss cls_score
                 (self_img_based_class_weights self)
                 (self_batch_weights self)
                 (match self_class_weight self with
                  | Some l => Some (mkTensor [length l] l)
                  | None => None
                  end)
                 (match ro with Some r => r | None => self_reduction self end)
                 af
                 (match kw with Some i => i | None => 255%Z end)
                 (self_include_zero self) st with
         | (Ok loss, st') =>
             (Ok (tmap (fun x => fmul (self_loss_weight self) x) loss), st')
         | (Err e, st') => (Err e, st')
         end
       else (Err AssertionError, st).
Proof.
  split.
  - unfold override_allowed. destruct ro as [s|]; [|tauto].
    rewrite !orb_true_iff, !String.eqb_eq. split.
    + intros [[->| ->]| ->]; auto.
    + intros [H|[H|[H|H]]]; try discriminate; injection H as ->; auto.
  - unfold forward, bind. destruct (override_allowed ro) eqn:Ea;
      cbn [assert_ ret raise]; [|reflexivity].
    assert (Hr : choose_reduction ro (self_reduction self)
                 = match ro with Some r => r | None => self_reduction self end).
    { unfold choose_reduction, override_allowed in *. destruct ro as [s|]; [|reflexivity].
      destruct (String.eqb_spec s "") as [->|]; [discriminate|reflexivity]. }
    rewrite Hr.
    destruct (self_class_weight self); cbn [option_map new_tensor];
      destruct (binary_cross_entropy _ _ _ _ _ _ _ _ _ _ _) as [[loss|e] st'];
      reflexivity.
Qed.

(** X1: what a call leaves in the caller's label tensor, whether it
    returns or raises: the labels are decremented, but for the ignored
    ones, exactly when they are expanded with the zero class excluded. *)
Lemma binary_cross_entropy_label_store (pred : tensor fval)
    (img : option string) (bw : bool) (cw : option (tensor fval))
    (red : string) (af : option fval) (ign : Z) (iz : bool) (st : store) :
  caller_label (snd (binary_cross_entropy bce_logit weight_reduce_loss pred
                       img bw cw red af ign iz st))
  = if negb (dim pred =? dim (caller_label st))
       && (((dim pred =? 2) && (dim (caller_label st) =? 1))
           || ((dim pred =? 4) && (dim (caller_label st) =? 3)))
       && negb iz
    then tmap (shift_label ign) (caller_label st)
    else caller_label st.
Proof.
  unfold binary_cross_entropy, bind, get. cbn [fst snd].
  destruct (negb (dim pred =? dim (caller_label st))); cbn [andb].
  - destruct (((dim pred =? 2) && (dim (caller_label st) =? 1))
              || ((dim pred =? 4) && (dim (caller_label st) =? 3)));
      cbn [andb assert_ ret raise snd]; [|reflexivity].
    pose proof (expand_onehot_labels_label_store (shape pred) ign iz st) as H.
    destruct (_expand_onehot_labels (shape pred) ign iz st) as [[[l wt]|e] st'].
    + unfold lift, ret. cbv beta iota.
      destruct (elementwise_loss _ _ _ _ _ _ _) as [loss|e]; cbn [snd] in *;
        destruct iz; exact H.
    + cbn [snd] in *. destruct iz; exact H.
  - unfold lift, ret.
    destruct (elementwise_loss _ _ _ _ _ _ _) as [loss|e]; reflexivity.
Qed.

(** In the per-image mode a prediction of size (N, C) with labels of size
    (N) whose valid values are below C, no sample weights and the zero
    class included fails with the assertion error of that mode. *)
Lemma per_image_mode_rank2_asserts (n c : nat) (pred : tensor fval)
    (mode : string) (red : string) (af : option fval) (ign : Z) (st : store) :
  shape pred = [n; c] ->
  shape (caller_label st) = [n] ->
  wf (caller_label st) ->
  caller_weight st = None ->
  (forall x, In x (data (caller_label st)) -> valid ign x = true ->
             (x < Z.of_nat c)%Z) ->
  binary_cross_entropy bce_logit weight_reduce_loss pred (Some mode) false
    None red af ign true st
  = (Err AssertionError, st).
Proof.
  intros Hp Hl Hwf Hw Hx.
  destruct (expand_onehot_labels_returns [n; c] ign st Hw) as [bin [vm [E _]]].
  - now apply index_tuples_in_bounds_2d.
  - unfold dim. rewrite Hl. cbn. lia.
  - rewrite Hl. unfold expandable, pad_shape. cbn.
    rewrite !Nat.eqb_refl, ?orb_true_r. reflexivity.
  - unfold binary_cross_entropy, bind, get. cbn [fst snd].
    unfold dim. rewrite Hp, Hl. cbn [length Nat.eqb negb andb orb assert_ ret].
    rewrite E. unfold lift, ret, elementwise_loss, dim. rewrite Hp. reflexivity.
Qed.

End LossFacts.

(* ------------------------------------------------------------------ *)
(** ** The properties at concrete inputs *)

(** C7, witness: a prediction of three dimensions with a label of one. *)
Lemma unsupported_rank_pair_asserts_witness :
  dim (mkTensor [2; 3; 4] (repeat f0 24)) <> dim (caller_label st_rank1)
  /\ ~ (dim (mkTensor [2; 3; 4] (repeat f0 24)) = 2
        /\ dim (caller_label st_rank1) = 1)
  /\ ~ (dim (mkTensor [2; 3; 4] (repeat f0 24)) = 4
        /\ dim (caller_label st_rank1) = 3)
  /\ forall elem reduce,
       binary_cross_entropy elem reduce (mkTensor [2; 3; 4] (repeat f0 24))
         None true None "mean" None 255 true st_rank1
       = (Err AssertionError, st_rank1).
Proof.
  assert (H1 : dim (mkTensor [2; 3; 4] (repeat f0 24)) <> dim (caller_label st_rank1))
    by (cbn; lia).
  assert (H2 : ~ (dim (mkTensor [2; 3; 4] (repeat f0 24)) = 2
                  /\ dim (caller_label st_rank1) = 1)) by (cbn; lia).
  assert (H3 : ~ (dim (mkTensor [2; 3; 4] (repeat f0 24)) = 4
                  /\ dim (caller_label st_rank1) = 3)) by (cbn; lia).
  split; [exact H1|]. split; [exact H2|]. split; [exact H3|].
  intros elem reduce.
  exact (unsupported_rank_pair_asserts elem reduce _ None true None "mean" None
           255%Z true st_rank1 H1 H2 H3).
Defined.

(** C1, witness: the scenario itself, a prediction of size (2, 3, 4, 4)
    and labels of size (2, 4, 4) with values 0, 1 and 2. *)
Lemma no_class_weight_raises_witness :
  shape pred_scenario = [2; 3; 4; 4]
  /\ shape (caller_label st_scenario) = [2; 4; 4]
  /\ wf (caller_label st_scenario)
  /\ caller_weight st_scenario = None
  /\ (forall x, In x (data (caller_label st_scenario)) ->
                valid 255 x = true -> (x < Z.of_nat 3)%Z)
  /\ forall elem reduce,
       binary_cross_entropy elem reduce pred_scenario None true None "mean"
         None 255 true st_scenario
       = (Err AttributeError, st_scenario).
Proof.
  assert (H1 : shape pred_scenario = [2; 3; 4; 4]) by reflexivity.
  assert (H2 : shape (caller_label st_scenario) = [2; 4; 4]) by reflexivity.
  assert (H3 : wf (caller_label st_scenario)) by reflexivity.
  assert (H4 : caller_weight st_scenario = None) by reflexivity.
  assert (H5 : forall x, In x (data (caller_label st_scenario)) ->
                         valid 255 x = true -> (x < Z.of_nat 3)%Z).
  { intros x Hin _. cbn in Hin.
    repeat (destruct Hin as [<-|Hin]; [lia|]). destruct Hin. }
  repeat (split; [assumption|]).
  intros elem reduce.
  exact (no_class_weight_raises elem reduce 2 3 4 4 pred_scenario true "mean"
           None 255%Z st_scenario H1 H2 H3 H4 H5).
Defined.

(** C4, witness: a prediction of size (2, 3), labels 0 and 1, and a class
    weight per class. *)
Lemma rank2_prediction_never_returns_witness :
  dim (mkTensor [2; 3] (repeat f0 6)) = 2
  /\ dim (caller_label st_rank1) = 1
  /\ forall elem reduce,
       is_ok (fst (binary_cross_entropy elem reduce
                     (mkTensor [2; 3] (repeat f0 6)) None true
                     (Some (new_tensor [Fin 1; Fin 1; Fin 1])) "mean" None
                     255 true st_rank1)) = false.
Proof.
  assert (H1 : dim (mkTensor [2; 3] (repeat f0 6)) = 2) by reflexivity.
  assert (H2 : dim (caller_label st_rank1) = 1) by reflexivity.
  split; [exact H1|]. split; [exact H2|].
  intros elem reduce.
  exact (rank2_prediction_never_returns elem reduce _ None true
           (Some (new_tensor [Fin 1; Fin 1; Fin 1])) "mean" None 255%Z true
           st_rank1 H1 H2).
Defined.

(** The error of that call: the positive-class weight has four dimensions
    and does not broadcast into a loss of two. *)
Example rank2_with_class_weight_error :
  forall elem reduce,
    binary_cross_entropy elem reduce (mkTensor [2; 3] (repeat f0 6)) None true
      (Some (new_tensor [Fin 1; Fin 1; Fin 1])) "mean" None 255 true st_rank1
    = (Err RuntimeError, st_rank1).
Proof. intros. vm_compute. reflexivity. Qed.

(** C10, witness: labels 0 and 1 for three classes are expanded, and the
    call fails with the assertion error. *)
Lemma per_image_mode_rank2_fails_witness :
  dim (mkTensor [2; 3] (repeat f0 6)) = 2
  /\ dim (caller_label st_rank1) = 1
  /\ forall elem reduce,
       binary_cross_entropy elem reduce (mkTensor [2; 3] (repeat f0 6))
         (Some "norm"%string) false None "mean" None 255 true st_rank1
       = (Err AssertionError, st_rank1).
Proof.
  assert (H1 : dim (mkTensor [2; 3] (repeat f0 6)) = 2) by reflexivity.
  assert (H2 : dim (caller_label st_rank1) = 1) by reflexivity.
  split; [exact H1|]. split; [exact H2|].
  intros elem reduce.
  exact (eq_trans
           (per_image_mode_rank2_fails elem reduce _ "norm" "mean" None 255%Z
              true st_rank1 H1 H2)
           eq_refl).
Defined.

(** C10, counterexample: the label 5 is out of range for two classes, so
    the indexed assignment of the expansion raises IndexError before the
    assertion of the per-image mode is reached. *)
Lemma per_image_mode_rank2_counterexample :
  (dim (mkTensor [1; 2] [f0; f0]) = 2
   /\ dim (caller_label (mkStore (mkTensor [1] [5%Z]) None)) = 1)
  /\ forall elem reduce,
       binary_cross_entropy elem reduce (mkTensor [1; 2] [f0; f0])
         (Some "norm"%string) false None "mean" None 255 true
         (mkStore (mkTensor [1] [5%Z]) None)
       = (Err IndexError, mkStore (mkTensor [1] [5%Z]) None).
Proof.
  split; [split; reflexivity|]. intros. vm_compute. reflexivity.
Qed.

(** C3 (what the code does): with the zero class excluded the expansion
    decrements the caller's labels in place.  For a prediction of size
    (1, 1, 1, 2), the labels 1 and 255 and two class weights, the call
    returns whatever the reduction returns for the element-wise loss, and
    the caller's label tensor holds 0 and 255 afterwards. *)
Theorem zero_exclusion_overwrites_caller_labels :
  caller_label st_shift_after <> caller_label st_shift_before
  /\ forall elem reduce,
       binary_cross_entropy elem reduce (mkTensor [1; 1; 1; 2] [f0; f0]) None
         true (Some (new_tensor [Fin 2; Fin 3])) "mean" None 255 false
         st_shift_before
       = (reduce (mkTensor [1; 1; 1; 2]
                    [elem f0 (Fin 1) (Fin 3); elem f0 (Fin 0) (Fin 3)])
                 (Some (mkTensor [1; 1; 1; 2] [Fin 1; Fin 0])) "mean"%string None,
          st_shift_after).
Proof.
  split; [discriminate|]. intros. vm_compute. reflexivity.
Qed.

(** C2 (what the code does): the histogram is taken over the expanded
    labels.  For three classes and the labels 2 and 2, the class indices
    give the weights 1, 1 and 1, but the weights used for the loss are
    those of the expanded tensor, which holds four zeros and two ones:
    4/3, 5/3 and 1, in the batch mode and in the per-image mode alike. *)
Theorem histogram_weights_of_expanded_labels :
  calculate_weights (caller_label st_two_twos) 3 false f1
    = Ok (mkTensor [3] [Fin (2 # 2); Fin (2 # 2); Fin (2 # 2)])
  /\ fst (_expand_onehot_labels [1; 3; 1; 2] 255 true st_two_twos)
     = Ok (mkTensor [1; 3; 1; 2] [0; 0; 0; 0; 1; 1]%Z,
           mkTensor [1; 3; 1; 2] (repeat f1 6))
  /\ calculate_weights (mkTensor [1; 3; 1; 2] [0; 0; 0; 0; 1; 1]%Z) 3 false f1
     = Ok (mkTensor [3] [Fin (8 # 6); Fin (10 # 6); Fin (6 # 6)])
  /\ forall elem reduce (batch_weights : bool),
       binary_cross_entropy elem reduce (mkTensor [1; 3; 1; 2] (repeat f0 6))
         (Some "no_norm"%string) batch_weights None "mean" None 255 true
         st_two_twos
       = (reduce (mkTensor [1; 3; 1; 2]
                    [elem f0 (Fin 0) (Fin (8 # 6)); elem f0 (Fin 0) (Fin (8 # 6));
                     elem f0 (Fin 0) (Fin (10 # 6)); elem f0 (Fin 0) (Fin (10 # 6));
                     elem f0 (Fin 1) (Fin (6 # 6)); elem f0 (Fin 1) (Fin (6 # 6))])
                 (Some (mkTensor [1; 3; 1; 2] (repeat f1 6))) "mean"%string None,
          st_two_twos).
Proof.
  repeat split; try (vm_compute; reflexivity).
  intros elem reduce [|]; vm_compute; reflexivity.
Qed.

(** C6 (what the code does): with the zero class excluded and the ignore
    index 255, the label 256, which is neither 0 nor ignored and is a class
    of a prediction of 256 channels, is decremented to 255 and then taken
    for an ignored position: its row of the expanded tensor sums to 0, and
    its row of the weights is 0. *)
Theorem shifted_label_taken_for_ignored :
  fst (_expand_onehot_labels [1; 256] 255 false (mkStore (mkTensor [1] [256%Z]) None))
    = Ok (full [1; 256] 0%Z, full [1; 256] f0)
  /\ class_sum (full [1; 256] 0%Z) 0 [] = 0%Z.
Proof. split; vm_compute; reflexivity. Qed.

(** The same with two channels and the ignore index 1. *)
Example shifted_label_taken_for_ignored_small :
  fst (_expand_onehot_labels [1; 2] 1 false (mkStore (mkTensor [1] [2%Z]) None))
    = Ok (full [1; 2] 0%Z, full [1; 2] f0)
  /\ class_sum (full [1; 2] 0%Z) 0 [] = 0%Z.
Proof. split; vm_compute; reflexivity. Qed.

(* ------------------------------------------------------------------ *)
(** ** Further properties of [_expand_onehot_labels] *)

(** Excluding the zero class is including it on labels that were
    decremented beforehand. *)
Lemma expand_exclude_zero_shift (ts : list nat) (ign : Z) (st : store) :
  _expand_onehot_labels ts ign false st
  = _expand_onehot_labels ts ign true
      (mkStore (tmap (shift_label ign) (caller_label st)) (caller_weight st)).
Proof. reflexivity. Qed.

Lemma forallb_false_in {A} (f : A -> bool) (l : list A) (a : A) :
  In a l -> f a = false -> forallb f l = false.
Proof.
  intros Hin Hf. destruct (forallb f l) eqn:E; [|reflexivity].
  rewrite forallb_forall in E. rewrite (E a Hin) in Hf. discriminate.
Qed.

Lemma index_tuple_of_label (labels : tensor Z) (ign : Z) (x : Z) :
  In x (data labels) -> valid ign x = true ->
  exists p, p < length (data labels)
            /\ In (index_tuple labels p x) (index_tuples labels ign).
Proof.
  intros Hin Hv. apply In_nth_error in Hin as [p Hp].
  exists p. split; [apply nth_error_Some; congruence|].
  unfold index_tuples. apply in_flat_map. exists (p, x). split.
  - apply in_combine_seq. rewrite Nat.sub_0_r. split; [lia|exact Hp].
  - rewrite Hv. now left.
Qed.

Lemma expandable_unsqueezed (n c : nat) (sp : list nat) :
  (sp = [] \/ exists h w, sp = [h; w]) ->
  expandable (firstn 1 (n :: sp) ++ 1 :: skipn 1 (n :: sp)) (n :: c :: sp) = true.
Proof.
  intros [->|[h [w ->]]]; unfold expandable, pad_shape; cbn;
    rewrite !Nat.eqb_refl, ?orb_true_r; reflexivity.
Qed.

Lemma index_tuples_in_bounds (n c : nat) (sp : list nat) (labels : tensor Z)
    (ign : Z) :
  shape labels = n :: sp -> (sp = [] \/ exists h w, sp = [h; w]) -> wf labels ->
  (forall x, In x (data labels) -> valid ign x = true -> (x < Z.of_nat c)%Z) ->
  forallb (tuple_in_bounds (n :: c :: sp)) (index_tuples labels ign) = true.
Proof.
  intros Hs [->|[h [w ->]]] Hwf Hx.
  - now apply index_tuples_in_bounds_2d.
  - now apply index_tuples_in_bounds_4d.
Qed.

(** With the zero class included and no sample weights: the expansion
    returns when the valid labels are below the number of classes, and
    raises IndexError when one is not; the store is left as it is. *)
Lemma expand_onehot_labels_range_included (n c : nat) (sp : list nat)
    (ign : Z) (st : store) :
  shape (caller_label st) = n :: sp -> (sp = [] \/ exists h w, sp = [h; w]) ->
  wf (caller_label st) -> caller_weight st = None ->
  ((forall x, In x (data (caller_label st)) -> valid ign x = true ->
              (x < Z.of_nat c)%Z) ->
   exists bin vm,
     _expand_onehot_labels (n :: c :: sp) ign true st = (Ok (bin, vm), st))
  /\ ((exists x, In x (data (caller_label st)) /\ valid ign x = true
                 /\ (Z.of_nat c <= x)%Z) ->
      _expand_onehot_labels (n :: c :: sp) ign true st = (Err IndexError, st)).
Proof.
  intros Hs Hsp Hwf Hw. split.
  - intros Hx.
    destruct (expand_onehot_labels_returns (n :: c :: sp) ign st Hw)
      as [bin [vm [E _]]].
    + now apply index_tuples_in_bounds.
    + unfold dim. rewrite Hs. cbn. lia.
    + rewrite Hs. now apply expandable_unsqueezed.
    + eauto.
  - intros [x [Hin [Hv Hc]]].
    destruct (index_tuple_of_label _ ign x Hin Hv) as [p [Hp Ht]].
    assert (Hbad : tuple_in_bounds (n :: c :: sp)
                     (index_tuple (caller_label st) p x) = false).
    { rewrite (index_tuple_supported _ n sp p x Hs Hsp).
      unfold tuple_in_bounds. cbn [combine forallb].
      replace (x <? Z.of_nat c)%Z with false by (symmetry; apply Z.ltb_ge; lia).
      rewrite ?andb_false_r. cbn [andb]. rewrite ?andb_false_r. reflexivity. }
    pose proof (forallb_false_in _ _ _ Ht Hbad) as Hf.
    unfold _expand_onehot_labels, bind, get, put, ret, lift, raise.
    cbn [fst snd]. unfold index_put_ones. rewrite Hf.
    destruct (index_tuples (caller_label st) ign); [destruct Ht|reflexivity].
Qed.

(** X3: for labels of size (N) or (N, H, W), a target of size (N, C) or
    (N, C, H, W) and no sample weights, the expansion returns exactly when
    every label that is valid after the shift of the zero class is below C,
    and raises IndexError otherwise; either way the store holds the labels
    after the shift. *)
Theorem expand_onehot_labels_range (n c : nat) (sp : list nat) (ign : Z)
    (iz : bool) (st : store) :
  shape (caller_label st) = n :: sp -> (sp = [] \/ exists h w, sp = [h; w]) ->
  wf (caller_label st) -> caller_weight st = None ->
  ((forall x,
       In x (data (if iz then caller_label st
                   else tmap (shift_label ign) (caller_label st))) ->
       valid ign x = true -> (x < Z.of_nat c)%Z) ->
   exists bin vm,
     _expand_onehot_labels (n :: c :: sp) ign iz st
     = (Ok (bin, vm),
        mkStore (if iz then caller_label st
                 else tmap (shift_label ign) (caller_label st)) None))
  /\ ((exists x,
          In x (data (if iz then caller_label st
                      else tmap (shift_label ign) (caller_label st)))
          /\ valid ign x = true /\ (Z.of_nat c <= x)%Z) ->
      _expand_onehot_labels (n :: c :: sp) ign iz st
      = (Err IndexError,
         mkStore (if iz then caller_label st
                  else tmap (shift_label ign) (caller_label st)) None)).
Proof.
  intros Hs Hsp Hwf Hw. destruct iz.
  - replace (mkStore (caller_label st) None) with st
      by (destruct st; cbn in Hw; now subst).
    now apply expand_onehot_labels_range_included.
  - rewrite expand_exclude_zero_shift, Hw.
    apply (expand_onehot_labels_range_included n c sp ign
             (mkStore (tmap (shift_label ign) (caller_label st)) None));
      cbn [caller_label caller_weight tmap shape data]; auto.
    unfold wf in *. cbn [tmap shape data]. now rewrite length_map.
Qed.

Lemma src_index_in_range (s idx : list nat) (k : nat) :
  ravel s idx = Some k -> src_index s idx = idx.
Proof.
  unfold src_index. revert idx k.
  induction s as [|d s IH]; intros [|i idx] k; cbn [ravel combine map];
    try discriminate; [reflexivity|].
  destruct (Nat.ltb_spec i d) as [Hi|Hi]; [|discriminate].
  destruct (ravel s idx) as [r|] eqn:Er; [|discriminate].
  intros _. rewrite (IH idx r Er).
  destruct (Nat.eqb_spec d 1) as [->|Hd]; [|reflexivity].
  f_equal. lia.
Qed.

Lemma expand_same_rank {A} (d : A) (t v : tensor A) (tgt : list nat) :
  length (shape t) = length tgt -> expand d t tgt = Ok v ->
  v = mkTensor tgt
        (map (fun p => match src_pos (shape t) tgt p with
                       | Some k => nth k (data t) d
                       | None => d
                       end)
             (seq 0 (numel tgt))).
Proof.
  intros Hl. unfold expand, pad_shape. rewrite Hl, Nat.leb_refl, Nat.sub_diag.
  destruct (expandable (shape t) tgt); [|discriminate].
  intros E. injection E as <-. reflexivity.
Qed.

(** The element of the expanded labels at sample and spatial position [q]
    of the labels and class [cc]. *)
Lemma ones_at_item (labels : tensor Z) (ign : Z) (n c : nat) (sp : list nat)
    (q cc : nat) :
  shape labels = n :: sp -> (sp = [] \/ exists h w, sp = [h; w]) ->
  wf labels -> q < numel (n :: sp) -> cc < c ->
  item (mkTensor (n :: c :: sp) (ones_at (n :: c :: sp) (index_tuples labels ign)))
       (hd 0 (unravel (n :: sp) q) :: cc :: tl (unravel (n :: sp) q))
  = Some (if valid ign (nth q (data labels) 0%Z)
             && (nth q (data labels) 0%Z =? Z.of_nat cc)%Z
          then 1%Z else 0%Z).
Proof.
  intros Hs Hsp Hwf Hq Hcc.
  pose proof (index_tuples_hit labels ign n sp q cc Hs Hsp Hwf Hq) as Hhit.
  pose proof (ravel_unravel (n :: sp) q Hq) as Hrq.
  destruct (unravel (n :: sp) q) as [|i r] eqn:Eu; [discriminate|].
  cbn [hd tl] in *. cbn [ravel] in Hrq.
  destruct (Nat.ltb_spec i n) as [Hi|Hi]; [|discriminate].
  destruct (ravel sp r) as [r0|] eqn:Er; [|discriminate].
  assert (Hrp : ravel (n :: c :: sp) (i :: cc :: r)
                = Some (i * numel (c :: sp) + (cc * numel sp + r0))).
  { cbn [ravel].
    replace (i <? n) with true by (symmetry; now apply Nat.ltb_lt).
    replace (cc <? c) with true by (symmetry; now apply Nat.ltb_lt).
    rewrite Er. reflexivity. }
  unfold item. cbn [shape data]. rewrite Hrp.
  unfold ones_at. rewrite nth_error_map_seq by (apply (ravel_lt _ _ _ Hrp)).
  rewrite (unravel_ravel _ _ _ Hrp), Hhit. reflexivity.
Qed.

(** The weights that a returning expansion gives when there are no sample
    weights: the validity mask of the labels read after the shift, with a
    class axis of size one, expanded to the target. *)
Lemma expand_onehot_labels_mask (ts : list nat) (ign : Z) (iz : bool)
    (st : store) (bin : tensor Z) (vm : tensor fval) :
  caller_weight st = None ->
  fst (_expand_onehot_labels ts ign iz st) = Ok (bin, vm) ->
  exists vm1 vm2,
    unsqueeze 1 (tmap (valid ign)
                   (if iz then caller_label st
                    else tmap (shift_label ign) (caller_label st))) = Ok vm1
    /\ expand false vm1 ts = Ok vm2
    /\ vm = tmap of_bool vm2.
Proof.
  intros Hw.
  assert (Hinc : forall st0, caller_weight st0 = None ->
            fst (_expand_onehot_labels ts ign true st0) = Ok (bin, vm) ->
            exists vm1 vm2,
              unsqueeze 1 (tmap (valid ign) (caller_label st0)) = Ok vm1
              /\ expand false vm1 ts = Ok vm2 /\ vm = tmap of_bool vm2).
  { intros st0 Hw0.
    unfold _expand_onehot_labels, bind, get, put, ret, lift, raise.
    cbn [fst snd]. rewrite Hw0.
    destruct (match index_tuples (caller_label st0) ign with
              | [] => _ | _ :: _ => _ end) as [b|e]; [|discriminate].
    destruct (unsqueeze 1 (tmap (valid ign) (caller_label st0))) as [vm1|e];
      [|discriminate].
    destruct (expand false vm1 ts) as [vm2|e] eqn:E2; [|discriminate].
    cbn [fst]. intros E. injection E as _ <-.
    exists vm1, vm2. repeat split; assumption. }
  destruct iz.
  - now apply Hinc.
  - rewrite expand_exclude_zero_shift. now apply Hinc.
Qed.

(** X4: element by element, the expansion gives the one-hot encoding of
    the labels read after the shift of the zero class and, without sample
    weights, their validity mask repeated along the class axis: at sample
    and spatial position [q] and class [cc] the expanded label is 1 exactly
    when the label at [q] is valid and is [cc], and the weight is 1 exactly
    when the label at [q] is valid. *)
Theorem expanded_labels_items (n c : nat) (sp : list nat) (ign : Z)
    (iz : bool) (st : store) (bin : tensor Z) (vm : tensor fval) (q cc : nat) :
  shape (caller_label st) = n :: sp -> (sp = [] \/ exists h w, sp = [h; w]) ->
  wf (caller_label st) -> caller_weight st = None ->
  fst (_expand_onehot_labels (n :: c :: sp) ign iz st) = Ok (bin, vm) ->
  q < numel (n :: sp) -> cc < c ->
  item bin (hd 0 (unravel (n :: sp) q) :: cc :: tl (unravel (n :: sp) q))
  = Some (if valid ign (if iz then nth q (data (caller_label st)) 0%Z
                        else shift_label ign (nth q (data (caller_label st)) 0%Z))
             && ((if iz then nth q (data (caller_label st)) 0%Z
                  else shift_label ign (nth q (data (caller_label st)) 0%Z))
                 =? Z.of_nat cc)%Z
          then 1%Z else 0%Z)
  /\ item vm (hd 0 (unravel (n :: sp) q) :: cc :: tl (unravel (n :: sp) q))
     = Some (of_bool
               (valid ign (if iz then nth q (data (caller_label st)) 0%Z
                           else shift_label ign
                                  (nth q (data (caller_label st)) 0%Z)))).
Proof.
  intros Hs Hsp Hwf Hw E Hq Hcc.
  set (labels := if iz then caller_label st
                 else tmap (shift_label ign) (caller_label st)).
  assert (Hs' : shape labels = n :: sp) by (subst labels; destruct iz; exact Hs).
  assert (Hwf' : wf labels).
  { subst labels. destruct iz; [exact Hwf|]. unfold wf, tmap in *. cbn [data shape].
    now rewrite length_map. }
  assert (Hy : nth q (data labels) 0%Z
               = if iz then nth q (data (caller_label st)) 0%Z
                 else shift_label ign (nth q (data (caller_label st)) 0%Z)).
  { subst labels. destruct iz; [reflexivity|]. unfold tmap. cbn [data].
    unfold wf in Hwf. rewrite Hs in Hwf.
    rewrite (nth_indep _ 0%Z (shift_label ign 0%Z)) by (rewrite length_map; lia).
    apply map_nth. }
  rewrite <- Hy. split.
  - apply expand_onehot_labels_bin in E as [-> _]. fold labels.
    now apply ones_at_item.
  - apply (expand_onehot_labels_mask _ _ _ _ _ _ Hw) in E as [vm1 [vm2 [E1 [E2 ->]]]].
    fold labels in E1. unfold unsqueeze, dim in E1. cbn [tmap shape data] in E1.
    rewrite Hs' in E1. cbn [length Nat.leb firstn skipn app] in E1.
    injection E1 as <-.
    apply expand_same_rank in E2;
      [|cbn [shape length]; destruct Hsp as [->|[h [w ->]]]; reflexivity].
    cbn [shape data] in E2. subst vm2.
    pose proof (ravel_unravel (n :: sp) q Hq) as Hrq.
    destruct (unravel (n :: sp) q) as [|i r] eqn:Eu; [discriminate|].
    cbn [hd tl]. cbn [ravel] in Hrq.
    destruct (Nat.ltb_spec i n) as [Hi|Hi]; [|discriminate].
    destruct (ravel sp r) as [r0|] eqn:Er; [|discriminate].
    cbn [option_map] in Hrq. injection Hrq as Hq0.
    assert (Hrp : ravel (n :: c :: sp) (i :: cc :: r)
                  = Some (i * numel (c :: sp) + (cc * numel sp + r0))).
    { cbn [ravel].
      replace (i <? n) with true by (symmetry; now apply Nat.ltb_lt).
      replace (cc <? c) with true by (symmetry; now apply Nat.ltb_lt).
      rewrite Er. reflexivity. }
    unfold item, tmap. cbn [shape data]. rewrite Hrp, map_map.
    rewrite nth_error_map_seq by (apply (ravel_lt _ _ _ Hrp)).
    unfold src_pos. rewrite (unravel_ravel _ _ _ Hrp).
    assert (Hsrc : src_index (n :: 1 :: sp) (i :: cc :: r) = i :: 0 :: r).
    { unfold src_index. cbn [combine map Nat.eqb].
      fold (src_index sp r). rewrite (src_index_in_range sp r r0 Er).
      destruct (Nat.eqb_spec n 1) as [->|Hn]; [|reflexivity].
      f_equal. lia. }
    rewrite Hsrc. cbn [ravel].
    replace (i <? n) with true by (symmetry; now apply Nat.ltb_lt).
    cbn [Nat.ltb Nat.leb]. rewrite Er. cbn [option_map].
    replace (i * numel (1 :: sp) + (0 * numel sp + r0)) with q
      by (cbn [numel fold_right]; fold (numel sp); lia).
    f_equal. f_equal.
    unfold wf in Hwf'. rewrite Hs' in Hwf'.
    rewrite (nth_indep _ false (valid ign 0%Z)) by (rewrite length_map; lia).
    apply map_nth.
Qed.

(* ------------------------------------------------------------------ *)
(** ** Further properties of [calculate_weights] *)

(** X5: [calculate_weights] raises exactly when the number of classes is
    0, with the RuntimeError of a histogram without bins; for every other
    number of classes and every label tensor it returns a vector with one
    entry per class. *)
Theorem calculate_weights_raises_without_classes (label : tensor Z) (C : nat)
    (norm : bool) (ub : fval) :
  if C =? 0 then calculate_weights label C norm ub = Err RuntimeError
  else exists w, calculate_weights label C norm ub = Ok (mkTensor [C] w)
                 /\ length w = C.
Proof.
  destruct (Nat.eqb_spec C 0) as [->|HC]; [reflexivity|].
  unfold calculate_weights, histc.
  replace (C =? 0) with false by (symmetry; now apply Nat.eqb_neq).
  assert (Hle : Qle_bool 0 (inject_Z (Z.of_nat C - 1)) = true).
  { apply Qle_bool_iff. replace 0%Q with (inject_Z 0) by reflexivity.
    rewrite <- Zle_Qle. lia. }
  rewrite Hle. cbn [negb orb]. unfold histc_range, float, tmap. cbn [data shape].
  rewrite float_values_finite.
  assert (Hlen : forall (h : list fval) (f : fval * fval -> fval) (g : fval -> fval),
             length h = C -> length (map f (combine h (map g h))) = C).
  { intros h f g Hh. now rewrite length_map, length_combine, length_map, Hh, Nat.min_id. }
  destruct (Qeq_bool 0 (inject_Z (Z.of_nat C - 1))).
  - destruct (match fin_values (map of_Z (data label)) with
              | [] => _ | q :: qs => _ end) as [lo hi].
    destruct (Qeq_bool lo hi); cbn [rbind shape data]; eexists;
      (split; [reflexivity|]); destruct norm; apply Hlen;
      now rewrite length_map, length_seq.
  - cbn [rbind shape data]. eexists. split; [reflexivity|].
    destruct norm; apply Hlen; now rewrite length_map, length_seq.
Qed.

(** The entries of the weight vector as rationals, under the conditions
    under which none of them is NaN. *)
Lemma calculate_weights_values (label : tensor Z) (C : nat) (norm : bool)
    (u : Q) :
  2 <= C -> (0 <= u)%Q ->
  (exists x, In x (data label) /\ (0 <= x <= Z.of_nat C - 1)%Z) ->
  exists w,
    calculate_weights label C norm (Fin u) = Ok (mkTensor [C] w)
    /\ forall k, k < C ->
         exists v, nth k w NaN = Fin v
                   /\ (v == class_weight_formula norm u
                              (count_class k (data label))
                              (count_valid C (data label)))%Q.
Proof.
  intros HC Hu Hex.
  rewrite calculate_weights_counts by exact HC.
  eexists. split; [reflexivity|].
  intros k Hk. rewrite nth_map_seq by exact Hk.
  destruct (fsum_of_nat (map (fun k => count_class k (data label)) (seq 0 C)))
    as [q [Eq Hq]].
  rewrite map_map in Eq. rewrite Eq. rewrite sum_count_class in Hq.
  destruct (weight_entry_value norm u (count_class k (data label))
              (count_valid C (data label)) q Hu
              (count_class_le_valid C k (data label) Hk)
              (count_valid_pos C (data label) Hex) Hq)
    as [v [Ev [Hv _]]].
  eauto.
Qed.

Lemma Qmult_le_l_nonneg (x y z : Q) :
  (x <= y)%Q -> (0 <= z)%Q -> (z * x <= z * y)%Q.
Proof.
  intros Hxy Hz. rewrite (Qmult_comm z x), (Qmult_comm z y).
  now apply Qmult_le_compat_r.
Qed.

Lemma Qinv_antitone (a b : Q) :
  (0 < a)%Q -> (a <= b)%Q -> (1 / b <= 1 / a)%Q.
Proof.
  intros Ha Hab. assert (Hb : (0 < b)%Q) by lra.
  apply Qle_shift_div_l; [exact Ha|].
  assert (E : (1 / b * a == a / b)%Q) by (field; lra).
  rewrite E. apply Qle_shift_div_r; [exact Hb|]. lra.
Qed.

Lemma Qdiv_monotone (a b t : Q) :
  (0 < t)%Q -> (a <= b)%Q -> (a / t <= b / t)%Q.
Proof.
  intros Ht Hab. apply Qle_shift_div_l; [exact Ht|].
  assert (E : (a / t * t == a)%Q) by (field; lra).
  rewrite E. exact Hab.
Qed.

(** X6: for 2 to 4097 classes, the class counts for which single precision
    puts every class index in its own bin ([bin_of_single_exact]), and an
    upper bound from 0 to the largest single-precision number: of two
    classes that occur among the labels, the rarer one gets the larger
    weight (or the same), with and without normalisation. *)
Theorem calculate_weights_rarer_class_heavier (label : tensor Z) (C : nat)
    (norm : bool) (u : Q) (w : list fval) (j k : nat) :
  2 <= C <= 4097 -> (0 <= u <= single_max)%Q -> j < C -> k < C ->
  0 < count_class j (data label) ->
  count_class j (data label) <= count_class k (data label) ->
  calculate_weights label C norm (Fin u) = Ok (mkTensor [C] w) ->
  fle (nth k w NaN) (nth j w NaN).
Proof.
  intros [HC _] [Hu _] Hj Hk Hpos Hjk E.
  assert (Hex : exists x, In x (data label) /\ (0 <= x <= Z.of_nat C - 1)%Z).
  { unfold count_class in Hpos.
    destruct (filter (fun x => (x =? Z.of_nat j)%Z) (data label)) as [|x l] eqn:Ef;
      [cbn in Hpos; lia|].
    assert (Hin : In x (filter (fun x => (x =? Z.of_nat j)%Z) (data label)))
      by (rewrite Ef; now left).
    apply filter_In in Hin as [Hin Hx]. apply Z.eqb_eq in Hx.
    exists x. split; [exact Hin|lia]. }
  destruct (calculate_weights_values label C norm u HC Hu Hex) as [w' [E' Hv]].
  rewrite E in E'. injection E' as <-.
  destruct (Hv j Hj) as [vj [Ej Hvj]]. destruct (Hv k Hk) as [vk [Ek Hvk]].
  rewrite Ej, Ek. cbn [fle]. rewrite Hvj, Hvk.
  set (cj := count_class j (data label)) in *.
  set (ck := count_class k (data label)) in *.
  set (t := count_valid C (data label)).
  assert (Ht : (0 < Qnat t)%Q)
    by (apply Qnat_pos; now apply count_valid_pos).
  assert (Hcj : (0 < Qnat cj)%Q) by (now apply Qnat_pos).
  assert (Hle : (Qnat cj <= Qnat ck)%Q) by (now apply Qnat_le).
  pose proof (Qdiv_monotone _ _ _ Ht Hle) as Hdiv.
  assert (Hj0 : (0 < Qnat cj / Qnat t)%Q)
    by (apply Qlt_shift_div_l; [exact Ht|lra]).
  unfold class_weight_formula.
  replace (cj =? 0) with false by (symmetry; apply Nat.eqb_neq; lia).
  replace (ck =? 0) with false by (symmetry; apply Nat.eqb_neq; lia).
  destruct norm.
  - assert (Heps : (0 < eps)%Q) by reflexivity.
    assert (Hinv : (1 / (Qnat ck / Qnat t + eps)
                    <= 1 / (Qnat cj / Qnat t + eps))%Q)
      by (apply Qinv_antitone; lra).
    assert (u * (1 / (Qnat ck / Qnat t + eps))
            <= u * (1 / (Qnat cj / Qnat t + eps)))%Q
      by (apply Qmult_le_l_nonneg; assumption).
    lra.
  - assert (u * (1 - Qnat ck / Qnat t) <= u * (1 - Qnat cj / Qnat t))%Q
      by (apply Qmult_le_l_nonneg; [lra|exact Hu]).
    lra.
Qed.


(* ------------------------------------------------------------------ *)
(** ** Further properties of [binary_cross_entropy] and [forward] *)

Lemma expand_onehot_labels_store_included (ts : list nat) (ign : Z)
    (st : store) :
  caller_weight st = None ->
  snd (_expand_onehot_labels ts ign true st) = st.
Proof.
  intros Hw.
  unfold _expand_onehot_labels, bind, get, put, ret, lift, raise.
  cbn [fst snd]. rewrite Hw.
  repeat match goal with
  | |- context [match ?x with _ => _ end] =>
      lazymatch x with
      | context [match _ with _ => _ end] => fail
      | _ => destruct x eqn:?; cbn [fst snd]
      end
  end; reflexivity.
Qed.

Lemma shape_eqb_true (s1 s2 : list nat) : shape_eqb s1 s2 = true -> s1 = s2.
Proof.
  unfold shape_eqb. destruct (list_eq_dec Nat.eq_dec s1 s2); [auto|discriminate].
Qed.

Lemma shape_eqb_refl (s : list nat) : shape_eqb s s = true.
Proof.
  unfold shape_eqb. destruct (list_eq_dec Nat.eq_dec s s); [reflexivity|congruence].
Qed.

Lemma broadcast_channel_mismatch (n c h w k : nat) :
  k <> c -> k <> 1 -> c <> 1 ->
  broadcast_shapes [1; k; 1; 1] [n; c; h; w] = None.
Proof.
  intros Hkc Hk Hc. unfold broadcast_shapes. cbn.
  replace (k =? c) with false by (symmetry; now apply Nat.eqb_neq).
  replace (k =? 1) with false by (symmetry; now apply Nat.eqb_neq).
  replace (c =? 1) with false by (symmetry; now apply Nat.eqb_neq).
  cbn. now rewrite andb_false_r.
Qed.

Section MoreLossFacts.

Variable bce_logit : fval -> fval -> fval -> fval.
Variable weight_reduce_loss :
  tensor fval -> option (tensor fval) -> string -> option fval ->
  result (tensor fval).

(** Without class weights and without a histogram mode the element-wise
    loss is never computed. *)
Lemma elementwise_loss_without_weights (pred : tensor fval) (label : tensor Z)
    (bw iz : bool) :
  elementwise_loss bce_logit pred label None bw None iz
  = Err (if iz then AttributeError else TypeError).
Proof. destruct bw, iz; reflexivity. Qed.

(** X9: a loss module configured without class weights and without a
    histogram mode, as it is by default, returns a loss for no input. *)
Theorem forward_without_weights_never_returns (self : BinaryCrossEntropyLoss)
    (cls_score : tensor fval) (af : option fval) (ro : option string)
    (kw : option Z) (st : store) :
  self_class_weight self = None ->
  self_img_based_class_weights self = None ->
  is_ok (fst (forward bce_logit weight_reduce_loss self cls_score af ro kw st))
  = false.
Proof.
  intros Hcw Himg. unfold forward, bind.
  destruct (override_allowed ro); cbn [assert_ ret raise fst]; [|reflexivity].
  rewrite Hcw, Himg. cbn [option_map].
  unfold binary_cross_entropy, bind, get. cbn [fst snd].
  destruct (negb (dim cls_score =? dim (caller_label st))).
  - destruct (((dim cls_score =? 2) && (dim (caller_label st) =? 1))
              || ((dim cls_score =? 4) && (dim (caller_label st) =? 3)));
      cbn [assert_ ret raise fst]; [|reflexivity].
    destruct (_expand_onehot_labels _ _ _ st) as [[[l wt]|e] st']; [|reflexivity].
    unfold lift, ret. cbv beta iota.
    rewrite elementwise_loss_without_weights. reflexivity.
  - unfold lift, ret. rewrite elementwise_loss_without_weights. reflexivity.
Qed.

(** X10: with the zero class included and no sample weights a call writes
    to no tensor of the caller, whether it returns or raises. *)
Theorem binary_cross_entropy_store_unchanged (pred : tensor fval)
    (img : option string) (bw : bool) (cw : option (tensor fval))
    (red : string) (af : option fval) (ign : Z) (st : store) :
  caller_weight st = None ->
  snd (binary_cross_entropy bce_logit weight_reduce_loss pred img bw cw red af
         ign true st) = st.
Proof.
  intros Hw. unfold binary_cross_entropy, bind, get. cbn [fst snd].
  destruct (negb (dim pred =? dim (caller_label st))).
  - destruct (((dim pred =? 2) && (dim (caller_label st) =? 1))
              || ((dim pred =? 4) && (dim (caller_label st) =? 3)));
      cbn [assert_ ret raise snd]; [|reflexivity].
    pose proof (expand_onehot_labels_store_included (shape pred) ign st Hw) as H.
    destruct (_expand_onehot_labels (shape pred) ign true st) as [[[l wt]|e] st'];
      cbn [snd] in H; subst st'; [|reflexivity].
    unfold lift, ret. cbv beta iota.
    destruct (elementwise_loss _ _ _ _ _ _ _); reflexivity.
  - unfold lift, ret.
    destruct (elementwise_loss _ _ _ _ _ _ _); reflexivity.
Qed.

(** A positive-class weight with neither one entry nor one entry per
    channel is refused. *)
Lemma logits_loss_channel_mismatch (input target pw : tensor fval)
    (n c h w k : nat) :
  shape input = [n; c; h; w] -> shape pw = [1; k; 1; 1] ->
  k <> c -> k <> 1 -> c <> 1 ->
  exists e, binary_cross_entropy_with_logits bce_logit input target pw = Err e.
Proof.
  intros Hi Hp Hkc Hk Hc. unfold binary_cross_entropy_with_logits.
  destruct (shape_eqb (shape target) (shape input)) eqn:E; cbn [negb]; [|eauto].
  apply shape_eqb_true in E. rewrite Hp, E, Hi.
  rewrite broadcast_channel_mismatch by assumption. eauto.
Qed.

(** With a histogram mode and the zero class excluded, the weights of all
    the channels are computed and the first one is dropped, so for three
    channels or more the element-wise loss is never computed. *)
Lemma elementwise_loss_histogram_excluding_zero (pred : tensor fval)
    (label : tensor Z) (mode : string) (bw : bool) (n c h w : nat) :
  shape pred = [n; c; h; w] -> 3 <= c -> 1 <= n ->
  exists e,
    elementwise_loss bce_logit pred label (Some mode) bw None false = Err e.
Proof.
  intros Hp Hc Hn. unfold elementwise_loss.
  cbn [is_none negb andb]. destruct bw; cbn [negb andb].
  - rewrite Hp. cbn [size_at nth_error rbind].
    rewrite calculate_weights_counts by lia. cbn [rbind drop_first shape data].
    eapply logits_loss_channel_mismatch; [exact Hp|reflexivity|lia|lia|lia].
  - unfold dim. rewrite Hp. cbn [length Nat.ltb Nat.leb andb].
    destruct (match length (shape label) with 0 => false | S m' => _ end);
      cbn [check rbind]; [|eauto].
    cbn [size_at nth_error rbind].
    destruct n as [|n']; [lia|]. cbn [seq per_image_loop].
    unfold per_image_step at 1. unfold rbind at 1 2.
    destruct (select0 label 0) as [label0|e]; [|eauto].
    rewrite calculate_weights_counts by lia. cbn [rbind drop_first shape data].
    unfold select0. rewrite Hp. cbn [Nat.ltb Nat.leb rbind].
    unfold unsqueeze at 1. cbn [dim shape length Nat.leb rbind firstn skipn app].
    destruct (unsqueeze 0 label0) as [target|e]; cbn [rbind]; [|eauto].
    cbn [pos_weight_of unsqueeze dim shape length Nat.leb rbind firstn skipn app data].
    match goal with
    | |- context [binary_cross_entropy_with_logits _ ?i ?t ?p] =>
        destruct (logits_loss_channel_mismatch i t p 1 c h w (Nat.pred c))
          as [e ->]; [reflexivity|reflexivity|lia|lia|lia|]
    end.
    cbn [rbind]. eauto.
Qed.

(** X11: a histogram mode cannot be combined with the exclusion of the
    zero class for a prediction of size (N, C, H, W) with N >= 1 and
    C >= 3: the call returns a loss for no labels. *)
Theorem histogram_excluding_zero_never_returns (n c h w : nat)
    (pred : tensor fval) (mode : string) (bw : bool) (red : string)
    (af : option fval) (ign : Z) (st : store) :
  shape pred = [n; c; h; w] -> 3 <= c -> 1 <= n ->
  is_ok (fst (binary_cross_entropy bce_logit weight_reduce_loss pred
                (Some mode) bw None red af ign false st)) = false.
Proof.
  intros Hp Hc Hn. unfold binary_cross_entropy, bind, get. cbn [fst snd].
  destruct (negb (dim pred =? dim (caller_label st))).
  - destruct (((dim pred =? 2) && (dim (caller_label st) =? 1))
              || ((dim pred =? 4) && (dim (caller_label st) =? 3)));
      cbn [assert_ ret raise fst]; [|reflexivity].
    destruct (_expand_onehot_labels _ _ _ st) as [[[l wt]|e] st']; [|reflexivity].
    unfold lift, ret. cbv beta iota.
    destruct (elementwise_loss_histogram_excluding_zero pred l mode bw n c h w
                Hp Hc Hn) as [e ->].
    reflexivity.
  - unfold lift, ret.
    destruct (elementwise_loss_histogram_excluding_zero pred (caller_label st)
                mode bw n c h w Hp Hc Hn) as [e ->].
    reflexivity.
Qed.

End MoreLossFacts.

Lemma nth_error_combine {A B} (a : list A) (b : list B) (p : nat) (x : A) (y : B) :
  nth_error a p = Some x -> nth_error b p = Some y ->
  nth_error (combine a b) p = Some (x, y).
Proof.
  revert b p. induction a as [|a0 a IH]; intros [|b0 b] [|p]; cbn;
    try discriminate.
  - intros E1 E2. congruence.
  - apply IH.
Qed.

Lemma broadcast_channel_weights (n c h w : nat) :
  broadcast_shapes [1; c; 1; 1] [n; c; h; w] = Some [n; c; h; w].
Proof.
  unfold broadcast_shapes. cbn. rewrite !Nat.eqb_refl, ?orb_true_r. cbn.
  destruct (c =? 1); reflexivity.
Qed.

Lemma expandable_channel_weights (n c h w : nat) :
  expandable [1; c; 1; 1] [n; c; h; w] = true.
Proof.
  unfold expandable, pad_shape. cbn. now rewrite !Nat.eqb_refl, ?orb_true_r.
Qed.

(** The channel weight read at an element of a tensor of four
    dimensions. *)
Lemma src_pos_channel (n c h w i cc j k p : nat) :
  ravel [n; c; h; w] [i; cc; j; k] = Some p ->
  src_pos [1; c; 1; 1] [n; c; h; w] p = Some cc.
Proof.
  intros Hr. unfold src_pos. rewrite (unravel_ravel _ _ _ Hr).
  cbn [ravel] in Hr.
  destruct (Nat.ltb_spec i n); [|discriminate].
  destruct (Nat.ltb_spec cc c) as [Hcc|]; [|discriminate].
  unfold src_index. cbn [combine map Nat.eqb ravel Nat.ltb Nat.leb].
  destruct (Nat.eqb_spec c 1) as [->|Hc].
  - assert (cc = 0) by lia. subst cc. reflexivity.
  - replace (cc <=? c - 1) with true by (symmetry; apply Nat.leb_le; lia).
    destruct c as [|c']; [lia|].
    replace (cc <=? c') with true by (symmetry; apply Nat.leb_le; lia).
    cbn. f_equal. lia.
Qed.

Section ClassWeightedLoss.

Variable bce_logit : fval -> fval -> fval -> fval.
Variable weight_reduce_loss :
  tensor fval -> option (tensor fval) -> string -> option fval ->
  result (tensor fval).

(** The logits loss with one weight per channel, element by element. *)
Lemma logits_loss_channel_weights (input target : tensor fval)
    (ws : list fval) (n c h w : nat) :
  shape input = [n; c; h; w] -> shape target = [n; c; h; w] ->
  exists loss,
    binary_cross_entropy_with_logits bce_logit input target
      (mkTensor [1; c; 1; 1] ws) = Ok loss
    /\ shape loss = [n; c; h; w]
    /\ forall idx x t,
         length idx = 4 ->
         item input idx = Some x -> item target idx = Some t ->
         item loss idx = Some (bce_logit x t (nth (nth 1 idx 0) ws NaN)).
Proof.
  intros Hi Ht. unfold binary_cross_entropy_with_logits.
  cbn [shape data]. rewrite Hi, Ht, shape_eqb_refl. cbn [negb].
  rewrite broadcast_channel_weights, shape_eqb_refl.
  unfold expand, pad_shape. cbn [shape data length Nat.leb Nat.sub repeat app].
  rewrite expandable_channel_weights. cbn [rbind].
  eexists. split; [reflexivity|]. split; [reflexivity|].
  intros idx x t Hlen Hx Hy. unfold item in *. cbn [shape data].
  rewrite Hi in Hx. rewrite Ht in Hy.
  destruct (ravel [n; c; h; w] idx) as [p|] eqn:Hr; [|discriminate].
  destruct idx as [|i [|cc [|j [|k [|]]]]]; try discriminate.
  cbn [nth].
  rewrite nth_error_map.
  rewrite (nth_error_combine (combine (data input) (data target)) _ p (x, t)
             (nth cc ws NaN)).
  - reflexivity.
  - apply nth_error_combine; assumption.
  - rewrite nth_error_map_seq by (apply (ravel_lt _ _ _ Hr)).
    fold (src_pos [1; c; 1; 1] [n; c; h; w] p).
    rewrite (src_pos_channel n c h w i cc j k p Hr). reflexivity.
Qed.

(** X8: with fixed class weights and labels of size (N, H, W) for a
    prediction of size (N, C, H, W), a call whose expansion of the labels
    returns hands to the reduction the weights of the expansion and the
    element-wise loss: at each element, the logits loss of the prediction
    and of the expanded label, with the class weight of the element's
    channel as positive-class weight.  When the zero class is excluded the
    first class weight is dropped, so that the weight list has one entry
    more than there are channels. *)
Theorem binary_cross_entropy_class_weighted (n c h w : nat)
    (pred : tensor fval) (wts : list fval) (bw : bool) (red : string)
    (af : option fval) (ign : Z) (iz : bool) (st : store)
    (bin : tensor Z) (vm : tensor fval) :
  shape pred = [n; c; h; w] ->
  dim (caller_label st) = 3 ->
  length (if iz then wts else tl wts) = c ->
  fst (_expand_onehot_labels [n; c; h; w] ign iz st) = Ok (bin, vm) ->
  exists loss,
    binary_cross_entropy bce_logit weight_reduce_loss pred None bw
      (Some (new_tensor wts)) red af ign iz st
    = (weight_reduce_loss loss (Some vm) red af,
       snd (_expand_onehot_labels [n; c; h; w] ign iz st))
    /\ shape loss = [n; c; h; w]
    /\ forall idx x b,
         length idx = 4 ->
         item pred idx = Some x -> item bin idx = Some b ->
         item loss idx
         = Some (bce_logit x (of_Z b)
                   (nth (nth 1 idx 0) (if iz then wts else tl wts) NaN)).
Proof.
  intros Hp Hl Hw E.
  pose proof E as Ebin. apply expand_onehot_labels_bin in Ebin as [Hbin _].
  assert (Hsb : shape bin = [n; c; h; w]) by (rewrite Hbin; reflexivity).
  destruct (logits_loss_channel_weights pred (float bin)
              (if iz then wts else tl wts) n c h w Hp Hsb)
    as [loss [El [Hsl Hitems]]].
  exists loss. split; [|split; [exact Hsl|]].
  - unfold binary_cross_entropy, bind, get. cbn [fst snd].
    assert (Hdp : dim pred = 4) by (unfold dim; now rewrite Hp).
    rewrite Hdp, Hl, Hp. cbn [Nat.eqb negb andb orb assert_ ret].
    destruct (_expand_onehot_labels [n; c; h; w] ign iz st) as [[[l wt]|e] st'];
      cbn [fst snd] in *; [|discriminate].
    injection E as -> ->.
    unfold lift, ret. cbv beta iota.
    unfold elementwise_loss. cbn [is_none negb andb rbind].
    destruct iz; cbn [rbind new_tensor drop_first shape data numel fold_right
                      pos_weight_of unsqueeze dim length Nat.leb firstn skipn app];
      rewrite <- Hw in El.
    + rewrite El. reflexivity.
    + replace (Nat.pred (length wts)) with (length (tl wts))
        by (destruct wts; reflexivity).
      change (match wts with [] => [] | _ :: l => l end) with (tl wts).
      rewrite El. reflexivity.
  - intros idx x b Hlen Hx Hb.
    apply (Hitems idx x (of_Z b) Hlen Hx).
    unfold item, float, tmap in *. cbn [shape data].
    destruct (ravel (shape bin) idx); [|discriminate].
    rewrite nth_error_map, Hb. reflexivity.
Qed.

End ClassWeightedLoss.

(* ------------------------------------------------------------------ *)
(** ** The histogram of expanded labels *)

Lemma count_class_binary (k : nat) (l : list Z) :
  (forall x, In x l -> x = 0%Z \/ x = 1%Z) -> 2 <= k -> count_class k l = 0.
Proof.
  intros Hb Hk. unfold count_class.
  induction l as [|x l IH]; [reflexivity|].
  cbn [filter].
  replace (x =? Z.of_nat k)%Z with false.
  - apply IH. intros y Hy. apply Hb. now right.
  - symmetry. apply Z.eqb_neq. destruct (Hb x (or_introl eq_refl)); lia.
Qed.

Lemma ones_at_binary (s : list nat) (tuples : list (list Z)) (x : Z) :
  In x (ones_at s tuples) -> x = 0%Z \/ x = 1%Z.
Proof.
  unfold ones_at. intros Hin. apply in_map_iff in Hin as [p [<- _]].
  destruct (existsb _ tuples); auto.
Qed.

(** X12: the histogram mode takes its histogram over the expanded labels,
    which hold zeros and ones only, so with three channels or more every
    channel from the third on gets the weight 1, whatever the labels. *)
Theorem histogram_of_expanded_labels_flat (ts : list nat) (c : nat) (ign : Z)
    (iz norm : bool) (st : store) (bin : tensor Z) (vm : tensor fval)
    (w : list fval) (k : nat) :
  fst (_expand_onehot_labels ts ign iz st) = Ok (bin, vm) ->
  0 < numel ts -> 3 <= c -> 2 <= k -> k < c ->
  calculate_weights bin c norm f1 = Ok (mkTensor [c] w) ->
  feq (nth k w NaN) f1.
Proof.
  intros E Hne Hc Hk2 Hkc Ew.
  apply expand_onehot_labels_bin in E as [-> _]. cbn [data] in *.
  set (l := ones_at ts _) in *.
  assert (Hb : forall x, In x l -> x = 0%Z \/ x = 1%Z)
    by (intros x; apply ones_at_binary).
  assert (Hex : exists x, In x l /\ (0 <= x <= Z.of_nat c - 1)%Z).
  { assert (Hlen : length l = numel ts)
      by (subst l; unfold ones_at; now rewrite length_map, length_seq).
    destruct l as [|x l']; [cbn in Hlen; lia|].
    exists x. split; [now left|].
    destruct (Hb x (or_introl eq_refl)); lia. }
  assert (Hu : (0 <= 1)%Q) by (unfold Qle; cbn; lia).
  destruct (calculate_weights_values (mkTensor ts l) c norm 1
              ltac:(lia) Hu Hex) as [w' [E' Hv]].
  unfold f1 in Ew. rewrite Ew in E'. injection E' as <-.
  destruct (Hv k Hkc) as [v [Ek Hvk]]. rewrite Ek. cbn [feq f1].
  rewrite Hvk. cbn [data]. unfold class_weight_formula.
  rewrite (count_class_binary k l Hb Hk2). reflexivity.
Qed.

(* ------------------------------------------------------------------ *)
(** ** The further properties at concrete inputs *)

(** X2, witness: the labels 2 and 2 for three classes, first position. *)
Lemma expanded_labels_one_hot_witness :
  shape (caller_label st_two_twos) = 1 :: [1; 2]
  /\ fst (_expand_onehot_labels (1 :: 3 :: [1; 2]) 255 true st_two_twos)
     = Ok (bin_two_twos, mask_two_twos)
  /\ class_sum bin_two_twos (hd 0 (unravel (1 :: [1; 2]) 0))
       (tl (unravel (1 :: [1; 2]) 0)) = 1%Z.
Proof.
  assert (H1 : shape (caller_label st_two_twos) = 1 :: [1; 2]) by reflexivity.
  assert (H2 : [1; 2] = [] \/ exists h w, [1; 2] = [h; w])
    by (right; exists 1, 2; reflexivity).
  assert (H3 : wf (caller_label st_two_twos)) by reflexivity.
  assert (H4 : fst (_expand_onehot_labels (1 :: 3 :: [1; 2]) 255 true st_two_twos)
               = Ok (bin_two_twos, mask_two_twos)) by reflexivity.
  assert (H5 : 0 < numel (1 :: [1; 2])) by (cbn; lia).
  assert (H6 : (0 <= nth 0 (data (caller_label st_two_twos)) 0 < 2 ^ 63)%Z)
    by (cbn; lia).
  assert (H7 : nth 0 (data (caller_label st_two_twos)) 0%Z <> 255%Z)
    by (cbn; lia).
  split; [exact H1|]. split; [exact H4|].
  exact (expanded_labels_one_hot 1 3 [1; 2] 255 true st_two_twos bin_two_twos
           mask_two_twos 0 H1 H2 H3 H4 H5 H6 H7).
Defined.

(** X3, witness: the labels 2 and 2 are below three classes and are not
    below two. *)
Lemma expand_onehot_labels_range_witness :
  (shape (caller_label st_two_twos) = 1 :: [1; 2]
   /\ wf (caller_label st_two_twos) /\ caller_weight st_two_twos = None)
  /\ (exists bin vm,
        _expand_onehot_labels (1 :: 3 :: [1; 2]) 255 true st_two_twos
        = (Ok (bin, vm), mkStore (caller_label st_two_twos) None))
  /\ _expand_onehot_labels (1 :: 2 :: [1; 2]) 255 true st_two_twos
     = (Err IndexError, mkStore (caller_label st_two_twos) None).
Proof.
  assert (H1 : shape (caller_label st_two_twos) = 1 :: [1; 2]) by reflexivity.
  assert (H2 : [1; 2] = [] \/ exists h w, [1; 2] = [h; w])
    by (right; exists 1, 2; reflexivity).
  assert (H3 : wf (caller_label st_two_twos)) by reflexivity.
  assert (H4 : caller_weight st_two_twos = None) by reflexivity.
  split; [repeat split; assumption|]. split.
  - apply (proj1 (expand_onehot_labels_range 1 3 [1; 2] 255 true st_two_twos
                    H1 H2 H3 H4)).
    intros x Hin _. cbn in Hin. destruct Hin as [<-|[<-|[]]]; lia.
  - apply (proj2 (expand_onehot_labels_range 1 2 [1; 2] 255 true st_two_twos
                    H1 H2 H3 H4)).
    exists 2%Z. cbn. repeat split; auto; lia.
Defined.

(** X4, witness: the labels 2 and 2 for three classes, first position,
    third class. *)
Lemma expanded_labels_items_witness :
  fst (_expand_onehot_labels (1 :: 3 :: [1; 2]) 255 true st_two_twos)
    = Ok (bin_two_twos, mask_two_twos)
  /\ item bin_two_twos [0; 2; 0; 0] = Some 1%Z
  /\ item mask_two_twos [0; 2; 0; 0] = Some f1.
Proof.
  assert (H1 : shape (caller_label st_two_twos) = 1 :: [1; 2]) by reflexivity.
  assert (H2 : [1; 2] = [] \/ exists h w, [1; 2] = [h; w])
    by (right; exists 1, 2; reflexivity).
  assert (H3 : wf (caller_label st_two_twos)) by reflexivity.
  assert (H4 : caller_weight st_two_twos = None) by reflexivity.
  assert (H5 : fst (_expand_onehot_labels (1 :: 3 :: [1; 2]) 255 true st_two_twos)
               = Ok (bin_two_twos, mask_two_twos)) by reflexivity.
  assert (H6 : 0 < numel (1 :: [1; 2])) by (cbn; lia).
  assert (H7 : 2 < 3) by lia.
  split; [exact H5|].
  exact (expanded_labels_items 1 3 [1; 2] 255 true st_two_twos bin_two_twos
           mask_two_twos 0 2 H1 H2 H3 H4 H5 H6 H7).
Defined.

(** X6, witness: class 0 occurs once and class 1 twice among the labels
    0, 1, 1 and 2. *)
Lemma calculate_weights_rarer_class_heavier_witness :
  (0 < count_class 0 (data four_labels)
   /\ count_class 0 (data four_labels) <= count_class 1 (data four_labels)
   /\ calculate_weights four_labels 3 false (Fin 1)
      = Ok (mkTensor [3] [Fin (7 # 4); Fin (6 # 4); Fin (7 # 4)]))
  /\ fle (nth 1 [Fin (7 # 4); Fin (6 # 4); Fin (7 # 4)] NaN)
         (nth 0 [Fin (7 # 4); Fin (6 # 4); Fin (7 # 4)] NaN).
Proof.
  assert (H1 : 2 <= 3 <= 4097) by lia.
  assert (H2 : (0 <= 1 <= single_max)%Q)
    by (split; apply Qle_bool_iff; vm_compute; reflexivity).
  assert (H3 : 0 < 3) by lia.
  assert (H4 : 1 < 3) by lia.
  assert (H5 : 0 < count_class 0 (data four_labels)) by (cbn; lia).
  assert (H6 : count_class 0 (data four_labels)
               <= count_class 1 (data four_labels)) by (cbn; lia).
  assert (H7 : calculate_weights four_labels 3 false (Fin 1)
               = Ok (mkTensor [3] [Fin (7 # 4); Fin (6 # 4); Fin (7 # 4)]))
    by (vm_compute; reflexivity).
  split; [repeat split; assumption|].
  exact (calculate_weights_rarer_class_heavier four_labels 3 false 1 _ 0 1
           H1 H2 H3 H4 H5 H6 H7).
Defined.


(** X8, witness: the labels 2 and 2 with the class weights 2, 3 and 4;
    the element of the third channel at the first position. *)
Lemma binary_cross_entropy_class_weighted_witness :
  fst (_expand_onehot_labels [1; 3; 1; 2] 255 true st_two_twos)
    = Ok (bin_two_twos, mask_two_twos)
  /\ forall elem reduce,
       exists loss,
         binary_cross_entropy elem reduce pred_two None true
           (Some (new_tensor [Fin 2; Fin 3; Fin 4])) "mean" None 255 true
           st_two_twos
         = (reduce loss (Some mask_two_twos) "mean"%string None, st_two_twos)
         /\ item loss [0; 2; 0; 0] = Some (elem f0 (Fin 1) (Fin 4)).
Proof.
  assert (H1 : shape pred_two = [1; 3; 1; 2]) by reflexivity.
  assert (H2 : dim (caller_label st_two_twos) = 3) by reflexivity.
  assert (H3 : length [Fin 2; Fin 3; Fin 4] = 3) by reflexivity.
  assert (H4 : fst (_expand_onehot_labels [1; 3; 1; 2] 255 true st_two_twos)
               = Ok (bin_two_twos, mask_two_twos)) by reflexivity.
  split; [exact H4|]. intros elem reduce.
  destruct (binary_cross_entropy_class_weighted elem reduce 1 3 1 2 pred_two
              [Fin 2; Fin 3; Fin 4] true "mean" None 255 true st_two_twos
              bin_two_twos mask_two_twos H1 H2 H3 H4)
    as [loss [E [_ Hitems]]].
  exists loss. split; [exact E|].
  exact (Hitems [0; 2; 0; 0] f0 1%Z eq_refl eq_refl eq_refl).
Defined.

(** X9, witness: the default configuration on the scenario of size
    (2, 3, 4, 4). *)
Lemma forward_without_weights_never_returns_witness :
  self_class_weight default_loss = None
  /\ self_img_based_class_weights default_loss = None
  /\ forall elem reduce,
       is_ok (fst (forward elem reduce default_loss pred_scenario None None
                     None st_scenario)) = false.
Proof.
  assert (H1 : self_class_weight default_loss = None) by reflexivity.
  assert (H2 : self_img_based_class_weights default_loss = None) by reflexivity.
  split; [exact H1|]. split; [exact H2|]. intros elem reduce.
  exact (forward_without_weights_never_returns elem reduce default_loss
           pred_scenario None None None st_scenario H1 H2).
Defined.

(** X10, witness: the labels 2 and 2 with fixed class weights. *)
Lemma binary_cross_entropy_store_unchanged_witness :
  caller_weight st_two_twos = None
  /\ forall elem reduce,
       snd (binary_cross_entropy elem reduce pred_two None true
              (Some (new_tensor [Fin 2; Fin 3; Fin 4])) "mean" None 255 true
              st_two_twos) = st_two_twos.
Proof.
  assert (H1 : caller_weight st_two_twos = None) by reflexivity.
  split; [exact H1|]. intros elem reduce.
  exact (binary_cross_entropy_store_unchanged elem reduce pred_two None true
           (Some (new_tensor [Fin 2; Fin 3; Fin 4])) "mean" None 255%Z
           st_two_twos H1).
Defined.

(** X11, witness: three channels, the batch mode of the histogram
    weights and the zero class excluded. *)
Lemma histogram_excluding_zero_never_returns_witness :
  shape pred_two = [1; 3; 1; 2] /\ 3 <= 3 /\ 1 <= 1
  /\ forall elem reduce,
       is_ok (fst (binary_cross_entropy elem reduce pred_two
                     (Some "norm"%string) true None "mean" None 255 false
                     st_two_twos)) = false.
Proof.
  assert (H1 : shape pred_two = [1; 3; 1; 2]) by reflexivity.
  assert (H2 : 3 <= 3) by lia.
  assert (H3 : 1 <= 1) by lia.
  repeat (split; [assumption|]). intros elem reduce.
  exact (histogram_excluding_zero_never_returns elem reduce 1 3 1 2 pred_two
           "norm" true "mean" None 255%Z st_two_twos H1 H2 H3).
Defined.

(** X12, witness: the labels 2 and 2 for three classes; the third channel
    gets the weight 1 although every label is of its class. *)
Lemma histogram_of_expanded_labels_flat_witness :
  fst (_expand_onehot_labels [1; 3; 1; 2] 255 true st_two_twos)
    = Ok (bin_two_twos, mask_two_twos)
  /\ calculate_weights bin_two_twos 3 false f1
     = Ok (mkTensor [3] [Fin (8 # 6); Fin (10 # 6); Fin (6 # 6)])
  /\ feq (nth 2 [Fin (8 # 6); Fin (10 # 6); Fin (6 # 6)] NaN) f1.
Proof.
  assert (H1 : fst (_expand_onehot_labels [1; 3; 1; 2] 255 true st_two_twos)
               = Ok (bin_two_twos, mask_two_twos)) by reflexivity.
  assert (H2 : 0 < numel [1; 3; 1; 2]) by (cbn; lia).
  assert (H3 : 3 <= 3) by lia.
  assert (H4 : 2 <= 2) by lia.
  assert (H5 : 2 < 3) by lia.
  assert (H6 : calculate_weights bin_two_twos 3 false f1
               = Ok (mkTensor [3] [Fin (8 # 6); Fin (10 # 6); Fin (6 # 6)]))
    by (vm_compute; reflexivity).
  split; [exact H1|]. split; [exact H6|].
  exact (histogram_of_expanded_labels_flat [1; 3; 1; 2] 3 255 true false
           st_two_twos bin_two_twos mask_two_twos _ 2 H1 H2 H3 H4 H5 H6).
Defined.

(* ------------------------------------------------------------------ *)
(** ** The per-image mode on a batch of one sample *)

Lemma strip_ones_length (s : list nat) : length (strip_ones s) <= length s.
Proof.
  induction s as [|d s IH]; [cbn; lia|].
  destruct d as [|[|d]]; cbn [strip_ones length]; lia.
Qed.

Lemma strip_ones_pad (s : list nat) :
  repeat 1 (length s - length (strip_ones s)) ++ strip_ones s = s.
Proof.
  induction s as [|d s IH]; [reflexivity|].
  destruct d as [|[|d]]; cbn [strip_ones].
  - now rewrite Nat.sub_diag.
  - pose proof (strip_ones_length s) as Hl. cbn [length].
    replace (S (length s) - length (strip_ones s))
      with (S (length s - length (strip_ones s))) by lia.
    cbn [repeat app]. now rewrite IH.
  - now rewrite Nat.sub_diag.
Qed.

Lemma forallb_combine_same (s : list nat) :
  forallb (fun '(a, b) => (a =? b) || (a =? 1)) (combine s s) = true.
Proof.
  induction s as [|d s IH]; [reflexivity|].
  cbn [combine forallb]. now rewrite Nat.eqb_refl, IH.
Qed.

Lemma map_nth_seq_id {A} (l : list A) (d : A) :
  map (fun p => nth p l d) (seq 0 (length l)) = l.
Proof.
  apply (nth_ext _ _ d d).
  - now rewrite length_map, length_seq.
  - intros p Hp. rewrite length_map, length_seq in Hp.
    now rewrite nth_map_seq.
Qed.

(** A value without its leading dimensions of size one expands to its
    own size unchanged. *)
Lemma expand_strip_ones {A} (d : A) (s : list nat) (dat : list A) :
  length dat = numel s ->
  expand d (mkTensor (strip_ones s) dat) s = Ok (mkTensor s dat).
Proof.
  intros Hlen. unfold expand, expandable, pad_shape. cbn [shape data].
  replace (length (strip_ones s) <=? length s) with true
    by (symmetry; apply Nat.leb_le; apply strip_ones_length).
  rewrite strip_ones_pad, forallb_combine_same. f_equal. f_equal.
  transitivity (map (fun p => nth p dat d) (seq 0 (numel s))).
  - apply map_ext_in. intros p Hp. apply in_seq in Hp.
    rewrite (src_index_in_range s (unravel s p) p) by (apply ravel_unravel; lia).
    rewrite ravel_unravel by lia. reflexivity.
  - rewrite <- Hlen. apply map_nth_seq_id.
Qed.

Lemma select0_single {A} (t : tensor A) (s : list nat) :
  shape t = 1 :: s -> wf t -> select0 t 0 = Ok (mkTensor s (data t)).
Proof.
  intros Hs Hwf. unfold select0. rewrite Hs. cbn [Nat.ltb Nat.leb Nat.mul skipn].
  unfold wf in Hwf. rewrite Hs in Hwf. cbn [numel fold_right] in Hwf.
  fold (numel s) in Hwf. rewrite <- (Nat.add_0_r (numel s)).
  replace (numel s + 0) with (length (data t)) by lia.
  now rewrite firstn_all.
Qed.

Lemma calculate_weights_data (t : tensor Z) (s : list nat) (c : nat)
    (norm : bool) (ub : fval) :
  calculate_weights (mkTensor s (data t)) c norm ub
  = calculate_weights t c norm ub.
Proof. destruct t. reflexivity. Qed.

(** Writing a value of size (1, ...) to the only slice of a tensor of
    zeros of that size gives the value. *)
Lemma setitem0_single (s : list nat) (v : tensor fval) :
  shape v = 1 :: s -> wf v ->
  setitem0 NaN (full (1 :: s) f0) 0 v = Ok v.
Proof.
  intros Hs Hwf. unfold wf in Hwf. rewrite Hs in Hwf.
  cbn [numel fold_right] in Hwf. fold (numel s) in Hwf.
  unfold setitem0, select0, full. cbn [shape data Nat.ltb Nat.leb rbind].
  rewrite Hs. cbn [strip_ones].
  rewrite expand_strip_ones by lia. cbn [rbind data].
  unfold assign0. cbn [shape data Nat.mul Nat.add firstn app].
  rewrite skipn_all2 by (rewrite repeat_length; unfold numel; cbn [fold_right]; lia).
  rewrite app_nil_r. destruct v as [sv dv]. cbn in *. now subst.
Qed.

Lemma expand_length {A} (d : A) (t v : tensor A) (tgt : list nat) :
  expand d t tgt = Ok v -> shape v = tgt /\ length (data v) = numel tgt.
Proof.
  unfold expand. destruct (pad_shape (shape t) tgt); [|discriminate].
  destruct (expandable (shape t) tgt); [|discriminate].
  intros E. injection E as <-. cbn [shape data].
  now rewrite length_map, length_seq.
Qed.

Section SingleSample.

Variable bce_logit : fval -> fval -> fval -> fval.
Variable weight_reduce_loss :
  tensor fval -> option (tensor fval) -> string -> option fval ->
  result (tensor fval).

(** The logits loss of well-formed tensors is a well-formed tensor of the
    size of the input. *)
Lemma logits_loss_wf (input target pw v : tensor fval) :
  wf input -> wf target ->
  binary_cross_entropy_with_logits bce_logit input target pw = Ok v ->
  shape v = shape input /\ wf v.
Proof.
  intros Hi Ht. unfold binary_cross_entropy_with_logits.
  destruct (shape_eqb (shape target) (shape input)) eqn:Es; cbn [negb];
    [|discriminate].
  apply shape_eqb_true in Es.
  destruct (broadcast_shapes (shape pw) (shape target)); [|discriminate].
  destruct (shape_eqb l (shape input)); [|discriminate].
  destruct (expand NaN pw (shape input)) as [pw'|] eqn:Ep; [|discriminate].
  apply expand_length in Ep as [_ Hl].
  cbn [rbind]. intros E. injection E as <-. split; [reflexivity|].
  unfold wf in *. cbn [shape data].
  rewrite length_map, !length_combine, Hi, Ht, Es, Hl. lia.
Qed.

(** The element-wise loss of a batch of one sample is the same in the
    per-image mode and in the batch mode of the histogram weights. *)
Lemma elementwise_loss_single_sample (pred : tensor fval) (label : tensor Z)
    (mode : string) (iz : bool) (c h w : nat) :
  shape pred = [1; c; h; w] -> shape label = [1; c; h; w] ->
  wf pred -> wf label ->
  elementwise_loss bce_logit pred label (Some mode) false None iz
  = elementwise_loss bce_logit pred label (Some mode) true None iz.
Proof.
  intros Hp Hl Hwp Hwl.
  assert (Hfl : wf (float label))
    by (unfold wf, float, tmap in *; cbn [shape data]; now rewrite length_map).
  unfold elementwise_loss. cbn [is_none negb andb].
  unfold dim. rewrite Hp, Hl.
  cbn [length Nat.ltb Nat.leb andb check rbind size_at nth_error seq
       per_image_loop].
  unfold per_image_step.
  rewrite (select0_single label [c; h; w] Hl Hwl). cbn [rbind].
  rewrite calculate_weights_data.
  destruct (calculate_weights label c (is_norm (Some mode)) f1) as [wv|e];
    cbn [rbind]; [|reflexivity].
  rewrite (select0_single pred [c; h; w] Hp Hwp).
  assert (Hin : unsqueeze 0 (mkTensor [c; h; w] (data pred)) = Ok pred)
    by (destruct pred; cbn in Hp; subst; reflexivity).
  assert (Htg : unsqueeze 0 (mkTensor [c; h; w] (data label)) = Ok label)
    by (destruct label; cbn in Hl; subst; reflexivity).
  assert (Hset : forall pw,
             (v <- binary_cross_entropy_with_logits bce_logit pred
                     (float label) pw ;;
              setitem0 NaN (full [1; c; h; w] f0) 0 v)%result
             = binary_cross_entropy_with_logits bce_logit pred (float label) pw).
  { intros pw.
    destruct (binary_cross_entropy_with_logits bce_logit pred (float label) pw)
      as [v|e] eqn:Ev; cbn [rbind]; [|reflexivity].
    apply (logits_loss_wf _ _ _ _ Hwp Hfl) in Ev as [Hsv Hwv].
    apply setitem0_single; [now rewrite Hsv, Hp|exact Hwv]. }
  destruct iz; cbn [rbind].
  - rewrite Hin, Htg. cbn [rbind].
    destruct (pos_weight_of wv) as [pw|e]; cbn [rbind]; [|reflexivity].
    rewrite Hset. destruct (binary_cross_entropy_with_logits _ _ _ _); reflexivity.
  - destruct (drop_first wv) as [wv'|e]; cbn [rbind]; [|reflexivity].
    rewrite Hin, Htg. cbn [rbind].
    destruct (pos_weight_of wv') as [pw|e]; cbn [rbind]; [|reflexivity].
    rewrite Hset. destruct (binary_cross_entropy_with_logits _ _ _ _); reflexivity.
Qed.

(** X13: for a prediction of size (1, C, H, W) and labels of three
    dimensions, the per-image mode and the batch mode of the histogram
    weights give the same outcome: the same loss or the same error, and
    the same store. *)
Theorem per_image_is_batch_for_one_sample (c h w : nat) (pred : tensor fval)
    (mode : string) (red : string) (af : option fval) (ign : Z) (iz : bool)
    (st : store) :
  shape pred = [1; c; h; w] -> wf pred -> dim (caller_label st) = 3 ->
  binary_cross_entropy bce_logit weight_reduce_loss pred (Some mode) false
    None red af ign iz st
  = binary_cross_entropy bce_logit weight_reduce_loss pred (Some mode) true
      None red af ign iz st.
Proof.
  intros Hp Hwp Hl.
  assert (Hdp : dim pred = 4) by (unfold dim; now rewrite Hp).
  unfold binary_cross_entropy, bind, get. cbn [fst snd].
  rewrite Hdp, Hl, Hp. cbn [Nat.eqb negb andb orb assert_ ret].
  destruct (_expand_onehot_labels [1; c; h; w] ign iz st) as [[[l wt]|e] st']
    eqn:E; [|reflexivity].
  assert (Ebin : fst (_expand_onehot_labels [1; c; h; w] ign iz st) = Ok (l, wt))
    by (now rewrite E).
  apply expand_onehot_labels_bin in Ebin as [Hbin _].
  assert (Hsl : shape l = [1; c; h; w]) by (rewrite Hbin; reflexivity).
  assert (Hwl : wf l).
  { rewrite Hbin. unfold wf, ones_at. cbn [shape data].
    now rewrite length_map, length_seq. }
  unfold lift, ret. cbv beta iota.
  rewrite (elementwise_loss_single_sample pred l mode iz c h w Hp Hsl Hwp Hwl).
  reflexivity.
Qed.

End SingleSample.

(** X13, witness: the labels 2 and 2 of one sample, three classes. *)
Lemma per_image_is_batch_for_one_sample_witness :
  shape pred_two = [1; 3; 1; 2] /\ wf pred_two
  /\ dim (caller_label st_two_twos) = 3
  /\ forall elem reduce,
       binary_cross_entropy elem reduce pred_two (Some "norm"%string) false
         None "mean" None 255 true st_two_twos
       = binary_cross_entropy elem reduce pred_two (Some "norm"%string) true
           None "mean" None 255 true st_two_twos.
Proof.
  assert (H1 : shape pred_two = [1; 3; 1; 2]) by reflexivity.
  assert (H2 : wf pred_two) by reflexivity.
  assert (H3 : dim (caller_label st_two_twos) = 3) by reflexivity.
  repeat (split; [assumption|]). intros elem reduce.
  exact (per_image_is_batch_for_one_sample elem reduce 3 1 2 pred_two "norm"
           "mean" None 255%Z true st_two_twos H1 H2 H3).
Defined.
